(** * Popcorn: the movie queue of the rating views

    A shallow embedding of the prefetch queue that the movie views of the
    popcorn front end keep, and the properties of it that the specification
    states.  Several realisations live in the repository and each has its
    own module below:

    - [Explorer]    : [app/src/components/MovieExplorer.tsx], batch fetches,
                      an exclusion list and a re-entrancy ref;
    - [ExplorerV1]  : the earlier MovieExplorer (single fetches joined by
                      [Promise.all], no exclusion list, no guard);
    - [RatingPage]  : the earlier [pages/MovieRatingPage.tsx] with one
                      preloaded movie and the retry loop, and [LegacyApp],
                      the [App] component it was derived from.

    The views run on the browser's event loop.  A handler runs to its next
    [await] without interruption, so a component is modelled by its state
    (the [useState] cells and the [useRef] cells), the list of promises that
    are still outstanding, and one transition per handler and per
    continuation.  Every handler reads the state of the latest render. *)

From Stdlib Require Import ZArith Ascii String DecimalString Lia.
From stdpp Require Import base list.
From Equations Require Import Equations.

Local Open Scope Z_scope.

(** ** Data shared by the views *)

(** [genres: Array<{ id: number | string; name: string } | string>] *)
Inductive GenreId :=
| GenreNum (n : Z)
| GenreStr (s : string).

Inductive Genre :=
| GenreObj (gid : GenreId) (name : string)
| GenreName (s : string).

(** [interface Movie]; [vote_average], a floating point number that no
    handler reads, is left out. *)
Record Movie := mkMovie {
  id : Z;
  title : string;
  original_title : string;
  overview : string;
  poster_path : option string;
  release_date : string;
  runtime : option Z;
  genres : list Genre;
}.

(** What a promise of the api settles with: a parsed body or a rejection. *)
Inductive Body :=
| BodyMovies (movies : list Movie)
| BodyOther.

Inductive Reply :=
| Resolved (body : Body)
| Rejected.

Inductive Rating := yes | no | maybe.

(** A network call as the views issue it. *)
Inductive Request :=
| Get (results : Z) (ignore : option (list Z))
| GetOne
| Post (movie_id : Z) (rating : Z).

(** A movie of which only the identifier matters; the scenarios use it. *)
Definition movie_with_id (n : Z) : Movie :=
  mkMovie n "" "" "" None "" None [].

Module Explorer.

(** *** State of the component *)

(** Promises the component is waiting for, named after the function that
    awaits them. *)
Inductive Pending :=
| PInitialize
| PReplenish
| PMoveNext
| PRating.

Record State := mkState {
  currentMovie : option Movie;
  movieQueue : list Movie;
  loadingMovie : bool;
  seenMovieIds : list Z;
  error : option string;
  expanded : bool;
  isInitialMount : bool;
  isReplenishing : bool;
  pending : list Pending;
  requests : list Request;
  console : list string;
}.

Definition FETCH_SIZE : Z := 10.
Definition MIN_QUEUE_SIZE : Z := 5.

Definition initial : State :=
  {| currentMovie := None; movieQueue := []; loadingMovie := false;
     seenMovieIds := []; error := None; expanded := false;
     isInitialMount := true; isReplenishing := false;
     pending := []; requests := []; console := [] |}.

(** The [useState] setters and the writes to the refs. *)
Definition setCurrentMovie (m : option Movie) (s : State) : State :=
  mkState m (movieQueue s) (loadingMovie s) (seenMovieIds s) (error s)
    (expanded s) (isInitialMount s) (isReplenishing s) (pending s)
    (requests s) (console s).

Definition setMovieQueue (f : list Movie -> list Movie) (s : State) : State :=
  mkState (currentMovie s) (f (movieQueue s)) (loadingMovie s)
    (seenMovieIds s) (error s) (expanded s) (isInitialMount s)
    (isReplenishing s) (pending s) (requests s) (console s).

Definition setLoadingMovie (b : bool) (s : State) : State :=
  mkState (currentMovie s) (movieQueue s) b (seenMovieIds s) (error s)
    (expanded s) (isInitialMount s) (isReplenishing s) (pending s)
    (requests s) (console s).

Definition setSeenMovieIds (f : list Z -> list Z) (s : State) : State :=
  mkState (currentMovie s) (movieQueue s) (loadingMovie s)
    (f (seenMovieIds s)) (error s) (expanded s) (isInitialMount s)
    (isReplenishing s) (pending s) (requests s) (console s).

Definition setError (e : option string) (s : State) : State :=
  mkState (currentMovie s) (movieQueue s) (loadingMovie s) (seenMovieIds s)
    e (expanded s) (isInitialMount s) (isReplenishing s) (pending s)
    (requests s) (console s).

Definition setExpanded (b : bool) (s : State) : State :=
  mkState (currentMovie s) (movieQueue s) (loadingMovie s) (seenMovieIds s)
    (error s) b (isInitialMount s) (isReplenishing s) (pending s)
    (requests s) (console s).

Definition setIsInitialMount (b : bool) (s : State) : State :=
  mkState (currentMovie s) (movieQueue s) (loadingMovie s) (seenMovieIds s)
    (error s) (expanded s) b (isReplenishing s) (pending s)
    (requests s) (console s).

Definition setIsReplenishing (b : bool) (s : State) : State :=
  mkState (currentMovie s) (movieQueue s) (loadingMovie s) (seenMovieIds s)
    (error s) (expanded s) (isInitialMount s) b (pending s)
    (requests s) (console s).

Definition setPending (f : list Pending -> list Pending) (s : State) : State :=
  mkState (currentMovie s) (movieQueue s) (loadingMovie s) (seenMovieIds s)
    (error s) (expanded s) (isInitialMount s) (isReplenishing s)
    (f (pending s)) (requests s) (console s).

Definition issue (r : Request) (s : State) : State :=
  mkState (currentMovie s) (movieQueue s) (loadingMovie s) (seenMovieIds s)
    (error s) (expanded s) (isInitialMount s) (isReplenishing s) (pending s)
    (requests s ++ [r]) (console s).

Definition console_error (msg : string) (s : State) : State :=
  mkState (currentMovie s) (movieQueue s) (loadingMovie s) (seenMovieIds s)
    (error s) (expanded s) (isInitialMount s) (isReplenishing s) (pending s)
    (requests s) (console s ++ [msg]).

(** *** [fetchMovies] *)

Definition normalizeGenre (g : Genre) : Genre :=
  match g with
  | GenreName s => GenreObj (GenreStr s) s
  | GenreObj _ _ => g
  end.

Definition normalizeMovie (m : Movie) : Movie :=
  mkMovie (id m) (title m) (original_title m) (overview m) (poster_path m)
    (release_date m) (runtime m) (map normalizeGenre (genres m)).

(** [seenMovieIds.length > 0 ? `&ignore=${seenMovieIds.join(',')}` : ''] *)
Definition ignoreParam (seen : list Z) : option (list Z) :=
  match seen with
  | [] => None
  | _ :: _ => Some seen
  end.

(** Up to the [await]: the request is built from the ids of the render the
    caller belongs to, and the promise [p] joins the outstanding ones. *)
Definition fetchMovies_call (count : Z) (p : Pending) (s : State) : State :=
  setPending (fun ps => ps ++ [p])
    (issue (Get count (ignoreParam (seenMovieIds s))) s).

(** From the [await] on: the movies handed to the caller and the state. *)
Definition fetchMovies_resume (r : Reply) (s : State) : list Movie * State :=
  match r with
  | Rejected => ([], console_error "Failed to fetch movies:" s)
  | Resolved BodyOther => ([], console_error "Invalid response format:" s)
  | Resolved (BodyMovies movies) =>
      let s1 :=
        match movies with
        | [] => s
        | _ :: _ => setSeenMovieIds (fun prevIds => prevIds ++ map id movies) s
        end in
      (map normalizeMovie movies, s1)
  end.

(** *** [replenishQueue] *)

Definition replenishQueue (s : State) : State :=
  if isReplenishing s then s
  else
    let s1 := setIsReplenishing true s in
    let s2 := if (Z.of_nat (length (movieQueue s)) <? 2)
              then setLoadingMovie true s1 else s1 in
    fetchMovies_call FETCH_SIZE PReplenish s2.

(** [isMounted] is a local that only the returned clean-up closure clears;
    the closure is the value the promise resolves to and nobody calls it, so
    the tests on it succeed. *)
Definition replenishQueue_resume (r : Reply) (s : State) : State :=
  let isMounted := true in
  let '(movies, s1) := fetchMovies_resume r s in
  let s2 :=
    match movies with
    | _ :: _ =>
        if isMounted then setMovieQueue (fun prevQueue => prevQueue ++ movies) s1
        else s1
    | [] => s1
    end in
  if isMounted then setIsReplenishing false (setLoadingMovie false s2) else s2.

(** *** [initialize] *)

Definition initialize (s : State) : State :=
  if negb (isInitialMount s) then s
  else fetchMovies_call FETCH_SIZE PInitialize
         (setError None (setLoadingMovie true s)).

Definition initialize_resume (r : Reply) (s : State) : State :=
  let '(movies, s1) := fetchMovies_resume r s in
  let s2 :=
    match movies with
    | first :: rest =>
        let s' := setCurrentMovie (Some first) s1 in
        match rest with
        | _ :: _ => setMovieQueue (fun _ => rest) s'
        | [] => s'
        end
    | [] => setError (Some "Failed to fetch movies"%string) s1
    end in
  setIsInitialMount false (setLoadingMovie false s2).

(** *** The effect that watches the queue *)

Definition queueEffect (s : State) : State :=
  if negb (loadingMovie s)
     && (Z.of_nat (length (movieQueue s)) <? MIN_QUEUE_SIZE)
     && (0 <=? Z.of_nat (length (movieQueue s)))
     && (match currentMovie s with Some _ => true | None => false end)
  then replenishQueue s
  else s.

(** *** [moveToNextMovie] *)

Definition moveToNextMovie (s : State) : State :=
  match movieQueue s with
  | nextMovie :: _ =>
      setExpanded false
        (setMovieQueue (fun prevQueue => drop 1 prevQueue)
           (setCurrentMovie (Some nextMovie) s))
  | [] =>
      if negb (isReplenishing s)
      then fetchMovies_call 1 PMoveNext
             (setLoadingMovie true (setIsReplenishing true s))
      else s
  end.

(** The [then] callback; [fetchMovies] does not reject, so the [catch]
    callback never runs. *)
Definition moveToNextMovie_resume (r : Reply) (s : State) : State :=
  let '(movies, s1) := fetchMovies_resume r s in
  let s2 :=
    match movies with
    | m :: _ => setCurrentMovie (Some m) s1
    | [] => setError (Some "Failed to fetch movie"%string) s1
    end in
  setIsReplenishing false (setLoadingMovie false s2).

(** *** [handleRating] *)

Definition numericRating (rating : Rating) : Z :=
  match rating with
  | yes => 5
  | maybe => 3
  | no => 1
  end.

Definition handleRating (rating : Rating) (s : State) : State :=
  match currentMovie s with
  | None => s
  | Some cur =>
      let movieId := id cur in
      let s1 := moveToNextMovie s in
      setPending (fun ps => ps ++ [PRating])
        (issue (Post movieId (numericRating rating)) s1)
  end.

Definition handleRating_resume (r : Reply) (s : State) : State :=
  match r with
  | Resolved _ => s
  | Rejected => console_error "Failed to save rating:" s
  end.

(** *** The event loop *)

Inductive Event :=
| Mount
| QueueEffect
| Replenish
| Skip
| Rate (rating : Rating)
| Settle (i : nat) (r : Reply).

Definition resume (p : Pending) (r : Reply) (s : State) : State :=
  match p with
  | PInitialize => initialize_resume r s
  | PReplenish => replenishQueue_resume r s
  | PMoveNext => moveToNextMovie_resume r s
  | PRating => handleRating_resume r s
  end.

(** The [i]-th outstanding promise settles; promises settle in any order. *)
Definition settle (i : nat) (r : Reply) (s : State) : State :=
  match pending s !! i with
  | Some p => resume p r (setPending (delete i) s)
  | None => s
  end.

Definition step (e : Event) (s : State) : State :=
  match e with
  | Mount => initialize s
  | QueueEffect => queueEffect s
  | Replenish => replenishQueue s
  | Skip => moveToNextMovie s
  | Rate rating => handleRating rating s
  | Settle i r => settle i r s
  end.

Definition run (es : list Event) (s : State) : State :=
  fold_left (fun st e => step e st) es s.

(** *** Measures on a state *)

Definition is_replenish (p : Pending) : bool :=
  match p with
  | PReplenish => true
  | _ => false
  end.

(** The promises whose owner set [isReplenishing.current]. *)
Definition holds_guard (p : Pending) : bool :=
  match p with
  | PReplenish | PMoveNext => true
  | _ => false
  end.

Definition outstanding (f : Pending -> bool) (s : State) : nat :=
  length (List.filter f (pending s)).

(** The movies a reply carries, as [fetchMovies] sees them. *)
Definition fetched (r : Reply) : list Movie :=
  match r with
  | Resolved (BodyMovies movies) => movies
  | _ => []
  end.

(** What settling a promise appends to [seenMovieIds]. *)
Definition seen_delta (s : State) (e : Event) : list Z :=
  match e with
  | Settle i r =>
      match pending s !! i with
      | Some PRating | None => []
      | Some _ => map id (fetched r)
      end
  | _ => []
  end.

(** The ref is set exactly while one promise of [replenishQueue] or of the
    empty-queue branch of [moveToNextMovie] is outstanding. *)
Definition guard_inv (s : State) : Prop :=
  outstanding holds_guard s = if isReplenishing s then 1%nat else 0%nat.

(** While a fetch of [replenishQueue] is outstanding the queue is shorter
    than one batch, and it is never longer than two. *)
Definition queue_inv (s : State) : Prop :=
  ((0 < outstanding is_replenish s)%nat ->
   Z.of_nat (length (movieQueue s)) <= FETCH_SIZE - 1) /\
  Z.of_nat (length (movieQueue s)) <= 2 * FETCH_SIZE - 1.

(** *** Assumptions on a run *)

(** [replenishQueue] has one call site, the effect that watches the queue;
    [by_effect] holds of the runs in which nothing else calls it. *)
Definition by_effect (e : Event) : bool :=
  match e with
  | Replenish => false
  | _ => true
  end.

(** The source answers with no more movies than the largest number that a
    request asks for. *)
Definition within_fetch_size (e : Event) : bool :=
  match e with
  | Settle _ r => Z.of_nat (length (fetched r)) <=? FETCH_SIZE
  | _ => true
  end.

(** The source never answers a fetch with an identifier it has already
    delivered, and never with the same identifier twice in one answer. *)
Definition fresh_reply (s : State) (e : Event) : Prop :=
  match e with
  | Settle i r =>
      match pending s !! i with
      | Some PRating | None => True
      | Some _ =>
          NoDup (map id (fetched r)) /\
          forall x, x ∈ map id (fetched r) -> x ∉ seenMovieIds s
      end
  | _ => True
  end.

Fixpoint never_repeats (es : list Event) (s : State) : Prop :=
  match es with
  | [] => True
  | e :: es' => fresh_reply s e /\ never_repeats es' (step e s)
  end.

End Explorer.

Module ExplorerV1.

(** The earlier MovieExplorer: every movie is fetched on its own with
    [fetchMovie], several of them joined by [Promise.all]. *)

(** One [fetchMovie] promise: [api.get<Movie>('/movies')] gives a movie,
    gives [null], or rejects. *)
Inductive Reply1 :=
| Movie1 (m : Movie)
| Null1
| Rejected1.

(** Outstanding promises; a [Promise.all] over [n] fetches is one of them. *)
Inductive Pending :=
| PInitialize (n : nat)
| PReplenish (n : nat)
| PMoveNext
| PRating.

Record State := mkState {
  currentMovie : option Movie;
  movieQueue : list Movie;
  loadingMovie : bool;
  error : option string;
  expanded : bool;
  pending : list Pending;
  requests : list Request;
  console : list string;
}.

Definition QUEUE_SIZE : nat := 3.

Definition initial : State :=
  {| currentMovie := None; movieQueue := []; loadingMovie := false;
     error := None; expanded := false;
     pending := []; requests := []; console := [] |}.

Definition setCurrentMovie (m : option Movie) (s : State) : State :=
  mkState m (movieQueue s) (loadingMovie s) (error s) (expanded s)
    (pending s) (requests s) (console s).

Definition setMovieQueue (f : list Movie -> list Movie) (s : State) : State :=
  mkState (currentMovie s) (f (movieQueue s)) (loadingMovie s) (error s)
    (expanded s) (pending s) (requests s) (console s).

Definition setLoadingMovie (b : bool) (s : State) : State :=
  mkState (currentMovie s) (movieQueue s) b (error s) (expanded s)
    (pending s) (requests s) (console s).

Definition setError (e : option string) (s : State) : State :=
  mkState (currentMovie s) (movieQueue s) (loadingMovie s) e (expanded s)
    (pending s) (requests s) (console s).

Definition setExpanded (b : bool) (s : State) : State :=
  mkState (currentMovie s) (movieQueue s) (loadingMovie s) (error s) b
    (pending s) (requests s) (console s).

Definition setPending (f : list Pending -> list Pending) (s : State) : State :=
  mkState (currentMovie s) (movieQueue s) (loadingMovie s) (error s)
    (expanded s) (f (pending s)) (requests s) (console s).

Definition issue (rs : list Request) (s : State) : State :=
  mkState (currentMovie s) (movieQueue s) (loadingMovie s) (error s)
    (expanded s) (pending s) (requests s ++ rs) (console s).

Definition console_error (msgs : list string) (s : State) : State :=
  mkState (currentMovie s) (movieQueue s) (loadingMovie s) (error s)
    (expanded s) (pending s) (requests s) (console s ++ msgs).

(** *** [fetchMovie] *)

(** [Array(n).fill(null).map(() => fetchMovie())]: [n] requests leave. *)
Definition fetchMovie_calls (n : nat) (s : State) : State :=
  issue (replicate n GetOne) s.

(** What one [fetchMovie] returns, and what it prints in its [catch]. *)
Definition fetchMovie_result (r : Reply1) : option Movie :=
  match r with
  | Movie1 m => Some m
  | Null1 => None
  | Rejected1 => None
  end.

Definition fetchMovie_log (r : Reply1) : list string :=
  match r with
  | Rejected1 => ["Failed to fetch movie:"%string]
  | _ => []
  end.

(** [movies.filter(movie => movie !== null)] over the joined results. *)
Definition validMovies (rs : list Reply1) : list Movie :=
  omap fetchMovie_result rs.

Definition fetch_logs (rs : list Reply1) (s : State) : State :=
  console_error (concat (map fetchMovie_log rs)) s.

(** *** [replenishQueue] *)

Definition replenishQueue (s : State) : State :=
  if (length (movieQueue s) <? QUEUE_SIZE)%nat then
    let moviesNeeded := (QUEUE_SIZE - length (movieQueue s))%nat in
    setPending (fun ps => ps ++ [PReplenish moviesNeeded])
      (fetchMovie_calls moviesNeeded s)
  else s.

Definition replenishQueue_resume (rs : list Reply1) (s : State) : State :=
  let s1 := fetch_logs rs s in
  match validMovies rs with
  | _ :: _ => setMovieQueue (fun prevQueue => prevQueue ++ validMovies rs) s1
  | [] => s1
  end.

(** *** [initialize] *)

Definition initialize (s : State) : State :=
  setPending (fun ps => ps ++ [PInitialize (QUEUE_SIZE + 1)])
    (fetchMovie_calls (QUEUE_SIZE + 1)
       (setError None (setLoadingMovie true s))).

Definition initialize_resume (rs : list Reply1) (s : State) : State :=
  let s1 := fetch_logs rs s in
  let s2 :=
    match validMovies rs with
    | first :: rest =>
        let s' := setCurrentMovie (Some first) s1 in
        match rest with
        | _ :: _ => setMovieQueue (fun _ => rest) s'
        | [] => s'
        end
    | [] => setError (Some "Failed to fetch movies"%string) s1
    end in
  setLoadingMovie false s2.

(** *** The effect that watches the queue *)

Definition queueEffect (s : State) : State :=
  if negb (loadingMovie s) && (length (movieQueue s) <? QUEUE_SIZE)%nat
  then replenishQueue s
  else s.

(** *** [moveToNextMovie] *)

Definition moveToNextMovie (s : State) : State :=
  match movieQueue s with
  | nextMovie :: _ =>
      setExpanded false
        (setMovieQueue (fun prevQueue => drop 1 prevQueue)
           (setCurrentMovie (Some nextMovie) s))
  | [] =>
      setPending (fun ps => ps ++ [PMoveNext])
        (fetchMovie_calls 1 (setLoadingMovie true s))
  end.

Definition moveToNextMovie_resume (r : Reply1) (s : State) : State :=
  let s1 := fetch_logs [r] s in
  match fetchMovie_result r with
  | Some movie => setLoadingMovie false (setCurrentMovie (Some movie) s1)
  | None =>
      setLoadingMovie false (setError (Some "Failed to fetch movie"%string) s1)
  end.

(** *** [handleRating] *)

Definition numericRating (rating : Rating) : Z :=
  match rating with
  | yes => 5
  | maybe => 3
  | no => 1
  end.

Definition handleRating (rating : Rating) (s : State) : State :=
  match currentMovie s with
  | None => s
  | Some cur =>
      let movieId := id cur in
      let s1 := moveToNextMovie s in
      setPending (fun ps => ps ++ [PRating])
        (issue [Post movieId (numericRating rating)] s1)
  end.

(** The write settles with [Rejected1] when [api.post] rejects. *)
Definition handleRating_resume (r : Reply1) (s : State) : State :=
  match r with
  | Rejected1 => console_error ["Failed to save rating:"%string] s
  | _ => s
  end.

(** *** The event loop *)

Inductive Event :=
| Mount
| QueueEffect
| Replenish
| Skip
| Rate (rating : Rating)
| Settle (i : nat) (rs : list Reply1).

(** How many replies the promise waits for. *)
Definition arity (p : Pending) : nat :=
  match p with
  | PInitialize n => n
  | PReplenish n => n
  | PMoveNext => 1
  | PRating => 1
  end.

Definition resume (p : Pending) (rs : list Reply1) (s : State) : State :=
  match p with
  | PInitialize _ => initialize_resume rs s
  | PReplenish _ => replenishQueue_resume rs s
  | PMoveNext => moveToNextMovie_resume (default Null1 (head rs)) s
  | PRating => handleRating_resume (default Null1 (head rs)) s
  end.

(** The [i]-th outstanding promise settles with one reply per fetch it
    joins; an event with another number of replies does not occur. *)
Definition settle (i : nat) (rs : list Reply1) (s : State) : State :=
  match pending s !! i with
  | Some p =>
      if (length rs =? arity p)%nat
      then resume p rs (setPending (delete i) s)
      else s
  | None => s
  end.

Definition step (e : Event) (s : State) : State :=
  match e with
  | Mount => initialize s
  | QueueEffect => queueEffect s
  | Replenish => replenishQueue s
  | Skip => moveToNextMovie s
  | Rate rating => handleRating rating s
  | Settle i rs => settle i rs s
  end.

Definition run (es : list Event) (s : State) : State :=
  fold_left (fun st e => step e st) es s.

(** The fetches a promise stands for when it is a replenishment. *)
Definition replenish_fetches (p : Pending) : nat :=
  match p with
  | PReplenish n => n
  | _ => 0
  end.

Definition outstanding_replenish (s : State) : nat :=
  sum_list (map replenish_fetches (pending s)).

End ExplorerV1.

Module RatingPage.

(** The earlier rating page: one displayed movie, one preloaded movie, and
    [fetchMovieFromAPI] with its retry loop. *)

Record MovieData := mkMovieData {
  id : Z;
  original_title : string;
  overview : string;
  poster_path : option string;
  genres : list Genre;
  release_date : string;
}.

(** The parsed body of the movie endpoint; a property that the body does
    not have is [None]. *)
Record Data := mkData {
  success : option bool;
  status_code : option Z;
  status_message : option string;
  data_id : option Z;
  data_original_title : option string;
  data_overview : option string;
  data_poster_path : option string;
  data_genres : option (list Genre);
  data_release_date : option string;
}.

(** What [fetch(getApiBaseUrl())] followed by [response.json()] does. *)
Inductive Response :=
| NetworkError (msg : string)
| HttpError (status : Z)
| Json (data : Data).

Inductive Exn := Error (message : string).

(** What the page does that can be observed from outside, in order. *)
Inductive Obs :=
| Attempt
| Sleep (ms : Z)
| Log (msg : string).

Record Snackbar := mkSnackbar { open : bool; message : string }.

Record User := mkUser { user_id : Z }.

Record Payload := mkPayload {
  payload_user_id : Z;
  movie_id : Z;
  rating : Z;
}.

(** Calls that were started and not awaited by their caller.  [TFetchNext]
    keeps the [movieData] that the closure of [fetchNextMovie] saw. *)
Inductive Task :=
| TFetchNext (seen_movieData : option MovieData)
| TPreload
| TWrite (payload : Payload).

Record State := mkState {
  movieData : option MovieData;
  nextMovieData : option MovieData;
  loading : bool;
  error : option string;
  submitting : bool;
  snackbar : Snackbar;
  user : option User;
  tasks : list Task;
  served : nat;
  trace : list Obs;
}.

Definition initial (u : option User) : State :=
  {| movieData := None; nextMovieData := None; loading := true;
     error := None; submitting := false;
     snackbar := mkSnackbar false ""; user := u;
     tasks := []; served := 0%nat; trace := [] |}.

Definition setMovieData (m : option MovieData) (s : State) : State :=
  mkState m (nextMovieData s) (loading s) (error s) (submitting s)
    (snackbar s) (user s) (tasks s) (served s) (trace s).

Definition setNextMovieData (m : option MovieData) (s : State) : State :=
  mkState (movieData s) m (loading s) (error s) (submitting s)
    (snackbar s) (user s) (tasks s) (served s) (trace s).

Definition setLoading (b : bool) (s : State) : State :=
  mkState (movieData s) (nextMovieData s) b (error s) (submitting s)
    (snackbar s) (user s) (tasks s) (served s) (trace s).

Definition setError (e : option string) (s : State) : State :=
  mkState (movieData s) (nextMovieData s) (loading s) e (submitting s)
    (snackbar s) (user s) (tasks s) (served s) (trace s).

Definition setSubmitting (b : bool) (s : State) : State :=
  mkState (movieData s) (nextMovieData s) (loading s) (error s) b
    (snackbar s) (user s) (tasks s) (served s) (trace s).

Definition setSnackbar (sn : Snackbar) (s : State) : State :=
  mkState (movieData s) (nextMovieData s) (loading s) (error s)
    (submitting s) sn (user s) (tasks s) (served s) (trace s).

Definition setTasks (f : list Task -> list Task) (s : State) : State :=
  mkState (movieData s) (nextMovieData s) (loading s) (error s)
    (submitting s) (snackbar s) (user s) (f (tasks s)) (served s) (trace s).

Definition observe (o : Obs) (s : State) : State :=
  mkState (movieData s) (nextMovieData s) (loading s) (error s)
    (submitting s) (snackbar s) (user s) (tasks s) (served s)
    (trace s ++ [o]).

Definition log (msg : string) : State -> State := observe (Log msg).

(** [await new Promise(resolve => setTimeout(resolve, ms))] *)
Definition sleep (ms : Z) : State -> State := observe (Sleep ms).

Definition selectionToRating (sel : Rating) : Z :=
  match sel with
  | no => 1
  | maybe => 2
  | yes => 3
  end.

Definition emptyMovie : MovieData :=
  mkMovieData 0 "" "" None [] "".

(** [{ id: data.id || 0, ..., ...data }]: the spread comes last, so a
    property of the body wins over the default. *)
Definition processMovieData (data : Data) : MovieData :=
  mkMovieData (default 0 (data_id data))
    (default ""%string (data_original_title data))
    (default ""%string (data_overview data))
    (data_poster_path data)
    (default [] (data_genres data))
    (default ""%string (data_release_date data)).

(** [data.success === false || data.status_code === 34] *)
Definition transient (data : Data) : bool :=
  match success data with Some false => true | _ => false end
  || match status_code data with Some c => c =? 34 | None => false end.

(** [haystack.includes(needle)] *)
Fixpoint includes (haystack needle : string) : bool :=
  String.prefix needle haystack
  || match haystack with
     | EmptyString => false
     | String _ rest => includes rest needle
     end.

Definition maxRetries : nat := 3.

Section Upstream.

(** The movie endpoint: its answer to the [n]-th request it serves. *)
Variable upstream : nat -> Response.

Definition fetch (s : State) : Response * State :=
  (upstream (served s),
   observe Attempt
     (mkState (movieData s) (nextMovieData s) (loading s) (error s)
        (submitting s) (snackbar s) (user s) (tasks s) (S (served s))
        (trace s))).

(** One turn of the [while] loop of [fetchMovieFromAPI]. *)
Inductive Turn :=
| Continue (s : State)
| Return (r : option MovieData) (s : State)
| Throw (e : Exn) (s : State).

(** The [catch] block of the loop. *)
Definition fetchMovieFromAPI_catch (currentRetry : nat) (err : Exn)
    (s : State) : Turn :=
  let s1 := log "Error fetching movie:" s in
  if (maxRetries - 1 <=? currentRetry)%nat then Throw err s1
  else Continue (sleep (1000 * Z.of_nat (S currentRetry)) s1).

Definition status_error (status : Z) : Exn :=
  Error (String.append "API request failed with status "
           (NilZero.string_of_int (Z.to_int status))).

(** The body of the loop; [Continue] stands for a next turn with
    [currentRetry + 1].  The log lines are kept without the values that the
    source interpolates into them. *)
Definition fetchMovieFromAPI_turn (currentRetry : nat) (s : State) : Turn :=
  let '(response, s1) := fetch s in
  match response with
  | NetworkError msg => fetchMovieFromAPI_catch currentRetry (Error msg) s1
  | HttpError status =>
      fetchMovieFromAPI_catch currentRetry (status_error status) s1
  | Json data =>
      if transient data then
        let s2 := log "[DEBUG] API returned error in response body:" s1 in
        if (maxRetries <=? S currentRetry)%nat then
          Return None
            (log "Exhausted retries for status code 34 error. Moving on silently." s2)
        else
          Continue
            (sleep (1000 * Z.of_nat (S currentRetry))
               (log "Silently retrying" s2))
      else
        Return (Some (processMovieData data))
          (log "[DEBUG] Processed movie data from API" s1)
  end.

Equations? fetchMovieFromAPI_from (currentRetry : nat) (s : State)
  : (option MovieData + Exn) * State
  by wf (maxRetries - currentRetry)%nat lt :=
  fetchMovieFromAPI_from currentRetry s
    with decide (currentRetry < maxRetries)%nat := {
    | left _ with fetchMovieFromAPI_turn currentRetry s := {
        | Continue s' := fetchMovieFromAPI_from (S currentRetry) s';
        | Return r s' := (inl r, s');
        | Throw e s' := (inr e, s') };
    | right _ := (inl None, s) }.
Proof. unfold maxRetries in *. lia. Qed.

Definition fetchMovieFromAPI (s : State) : (option MovieData + Exn) * State :=
  fetchMovieFromAPI_from 0 s.

(** [fetchNextMovie] from its first [await] on; [seen] is the [movieData]
    of the render that created the closure. *)
Definition fetchNextMovie_rest (seen : option MovieData) (s : State) : State :=
  let keep (s : State) : State :=
    match seen with
    | None => setMovieData (Some emptyMovie) s
    | Some _ => s
    end in
  let caught (err : Exn) (s : State) : State :=
    let s1 := log "Error fetching next movie:" s in
    let 'Error msg := err in
    if negb (includes msg "status_code: 34") then
      setSnackbar
        (mkSnackbar true "Failed to load next movie. Please try again later.")
        (setError
           (Some "Failed to load next movie. Please try again later."%string) s1)
    else
      keep (log "Silent error (status code 34) when fetching next movie" s1) in
  let s' :=
    match fetchMovieFromAPI s with
    | (inl (Some data), s1) => setError None (setMovieData (Some data) s1)
    | (inl None, s1) =>
        let s2 :=
          sleep 1000
            (log "Received null from fetchMovieFromAPI, trying again silently" s1) in
        match fetchMovieFromAPI s2 with
        | (inl (Some retryData), s3) =>
            setError None (setMovieData (Some retryData) s3)
        | (inl None, s3) =>
            keep (log "Failed to fetch movie data after silent retry" s3)
        | (inr err, s3) => caught err s3
        end
    | (inr err, s1) => caught err s1
    end in
  setLoading false s'.

Definition fetchNextMovie (s : State) : State :=
  fetchNextMovie_rest (movieData s) (setLoading true s).

(** [preloadNextMovie] from its first [await] on. *)
Definition preloadNextMovie_rest (s : State) : State :=
  match fetchMovieFromAPI (log "[DEBUG] Preloading next movie" s) with
  | (inl (Some data), s1) =>
      log "[DEBUG] Successfully preloaded next movie" (setNextMovieData (Some data) s1)
  | (inl None, s1) =>
      let s2 :=
        sleep 1000 (log "Received null when preloading, trying again silently" s1) in
      match fetchMovieFromAPI s2 with
      | (inl (Some retryData), s3) =>
          log "[DEBUG] Successfully preloaded next movie after retry"
            (setNextMovieData (Some retryData) s3)
      | (inl None, s3) =>
          log "Failed to preload next movie after silent retry" s3
      | (inr err, s3) => log "Error preloading next movie:" s3
      end
  | (inr err, s1) => log "Error preloading next movie:" s1
  end.

End Upstream.

(** *** [submitRating] *)

Definition submitRating (selectionValue : Rating) (s : State) : State :=
  match movieData s with
  | None =>
      setSnackbar
        (mkSnackbar true "Cannot submit rating: Movie ID not available") s
  | Some movieToRate =>
      if id movieToRate =? 0 then
        setSnackbar
          (mkSnackbar true "Cannot submit rating: Movie ID not available") s
      else
        match user s with
        | None => setSnackbar (mkSnackbar true "Please log in to rate movies") s
        | Some u =>
            let s1 :=
              match nextMovieData s with
              | Some next =>
                  setTasks (fun ts => ts ++ [TPreload])
                    (setNextMovieData None (setMovieData (Some next) s))
              | None =>
                  setTasks (fun ts => ts ++ [TFetchNext (movieData s)])
                    (setLoading true (setLoading true s))
              end in
            let payload :=
              mkPayload (user_id u) (id movieToRate)
                (selectionToRating selectionValue) in
            setTasks (fun ts => ts ++ [TWrite payload]) (setSubmitting true s1)
        end
  end.

(** What the POST of [submitRating] comes to: [fetch] rejects; it resolves
    with a response that is not ok; it resolves with an ok response of
    which [response.json()] rejects (no body, or one that is not JSON); or
    it resolves with an ok response whose body is read. *)
Inductive Written :=
| WriteRejected
| WriteNotOk (status : Z)
| WriteUnreadable
| WriteRead.

(** The outcomes on which the [catch] callback does not run. *)
Definition written (w : Written) : bool :=
  match w with
  | WriteRead => true
  | _ => false
  end.

(** The [then]/[catch]/[finally] chain on the POST: the [then] callback
    throws on a response that is not ok and returns [response.json()]
    otherwise, the [catch] callback receives the rejection of [fetch], the
    thrown error and the rejection of [response.json()] alike. *)
Definition submitRating_settled (w : Written) (s : State) : State :=
  let caught (s : State) : State :=
    setSnackbar
      (mkSnackbar true "Failed to submit rating, but we moved to the next movie.")
      (log "Error submitting rating:" s) in
  let s1 :=
    match w with
    | WriteRejected => caught s
    | WriteNotOk _ => caught s
    | WriteUnreadable => caught s
    | WriteRead => s
    end in
  setSubmitting false s1.

(** A started call finishes: the [i]-th task runs from its first [await]
    to its end.  [w] is read by a write only. *)
Definition finish (upstream : nat -> Response) (i : nat) (w : Written)
    (s : State) : State :=
  match tasks s !! i with
  | Some t =>
      let s1 := setTasks (delete i) s in
      match t with
      | TFetchNext seen => fetchNextMovie_rest upstream seen s1
      | TPreload => preloadNextMovie_rest upstream s1
      | TWrite _ => submitRating_settled w s1
      end
  | None => s
  end.

(** What the trace says: how many requests went out and which pauses were
    taken between them. *)
Definition attempts (t : list Obs) : nat :=
  length (List.filter (fun o => match o with Attempt => true | _ => false end) t).

Definition delays (t : list Obs) : list Z :=
  omap (fun o => match o with Sleep ms => Some ms | _ => None end) t.

Fixpoint strictly_increasing (l : list Z) : bool :=
  match l with
  | x :: (y :: _) as rest => (x <? y) && strictly_increasing rest
  | _ => true
  end.

(** [s] after [n] more requests and the observations [os]. *)
Definition went_on (n : nat) (os : list Obs) (s : State) : State :=
  mkState (movieData s) (nextMovieData s) (loading s) (error s)
    (submitting s) (snackbar s) (user s) (tasks s) (n + served s)
    (trace s ++ os).

(** What one call of [fetchMovieFromAPI] shows when every answer is the
    transient one. *)
Definition gave_up : list Obs :=
  [Attempt; Log "[DEBUG] API returned error in response body:";
   Log "Silently retrying"; Sleep 1000;
   Attempt; Log "[DEBUG] API returned error in response body:";
   Log "Silently retrying"; Sleep 2000;
   Attempt; Log "[DEBUG] API returned error in response body:";
   Log "Exhausted retries for status code 34 error. Moving on silently."].

(** The upstream of the retry scenario: status code 34 on every request. *)
Definition status_34 : Data :=
  mkData None (Some 34) None None None None None None None.

Definition always_34 (n : nat) : Response := Json status_34.

End RatingPage.

Module LegacyApp.

(** The [App] component that the rating page grew out of.  It keeps the
    same cells as [RatingPage] (its [selectedUser] is not read below), and
    its [fetchMovieFromAPI] differs in one place: when the retries for the
    transient answer are used up it throws instead of returning [null]. *)

Import RatingPage.

Section Upstream.

Variable upstream : nat -> Response.

Definition returned_error (data : Data) : Exn :=
  Error (String.append "API returned error: "
           (default "Resource not found"%string (status_message data))).

(** The [throw] for the used-up retries sits inside the [try], so the
    [catch] block of the same turn receives it, with [currentRetry] already
    incremented. *)
Definition fetchMovieFromAPI_turn (currentRetry : nat) (s : State) : Turn :=
  let '(response, s1) := fetch upstream s in
  match response with
  | NetworkError msg => fetchMovieFromAPI_catch currentRetry (Error msg) s1
  | HttpError status =>
      fetchMovieFromAPI_catch currentRetry (status_error status) s1
  | Json data =>
      if transient data then
        let s2 := log "[DEBUG] API returned error in response body" s1 in
        if (maxRetries <=? S currentRetry)%nat then
          fetchMovieFromAPI_catch (S currentRetry) (returned_error data) s2
        else
          Continue (sleep (1000 * Z.of_nat (S currentRetry)) s2)
      else
        Return (Some (processMovieData data))
          (log "[DEBUG] Processed movie data from API" s1)
  end.

Equations? fetchMovieFromAPI_from (currentRetry : nat) (s : State)
  : (option MovieData + Exn) * State
  by wf (maxRetries - currentRetry)%nat lt :=
  fetchMovieFromAPI_from currentRetry s
    with decide (currentRetry < maxRetries)%nat := {
    | left _ with fetchMovieFromAPI_turn currentRetry s := {
        | Continue s' := fetchMovieFromAPI_from (S currentRetry) s';
        | Return r s' := (inl r, s');
        | Throw e s' := (inr e, s') };
    | right _ := (inl None, s) }.
Proof. unfold maxRetries in *. lia. Qed.

Definition fetchMovieFromAPI (s : State) : (option MovieData + Exn) * State :=
  fetchMovieFromAPI_from 0 s.

Definition fetchNextMovie (s : State) : State :=
  let caught (s : State) : State :=
    setSnackbar
      (mkSnackbar true "Failed to load next movie. Please try again later.")
      (setError
         (Some "Failed to load next movie. Please try again later."%string)
         (log "Error fetching next movie:" s)) in
  let s' :=
    match fetchMovieFromAPI (setLoading true s) with
    | (inl (Some data), s1) => setError None (setMovieData (Some data) s1)
    | (inl None, s1) => caught s1
    | (inr _, s1) => caught s1
    end in
  setLoading false s'.

End Upstream.

(** What one call of [fetchMovieFromAPI] shows when every answer is the
    transient one. *)
Definition gave_up : list Obs :=
  [Attempt; Log "[DEBUG] API returned error in response body";
   Sleep 1000;
   Attempt; Log "[DEBUG] API returned error in response body";
   Sleep 2000;
   Attempt; Log "[DEBUG] API returned error in response body";
   Log "Error fetching movie:"].

End LegacyApp.

Module Scenario.

(** The movies and the states of the scenarios. *)

Definition A : Movie := movie_with_id 1.
Definition B : Movie := movie_with_id 2.
Definition C : Movie := movie_with_id 3.
Definition D : Movie := movie_with_id 4.

(** [n] movies with the identifiers [first], [first + 1], ... *)
Definition batch (first : Z) (n : nat) : list Movie :=
  map (fun k => movie_with_id (first + Z.of_nat k)) (seq 0 n).

(** The explorer after its first fetch brought [movies]. *)
Definition loaded (movies : list Movie) : Explorer.State :=
  Explorer.run
    [Explorer.Mount; Explorer.Settle 0 (Resolved (BodyMovies movies))]
    Explorer.initial.

(** Mount, ten movies, five ratings, the effect, ten more movies. *)
Definition long_session : list Explorer.Event :=
  [Explorer.Mount; Explorer.Settle 0 (Resolved (BodyMovies (batch 1 10)))]
  ++ replicate 5 (Explorer.Rate yes)
  ++ [Explorer.QueueEffect;
      Explorer.Settle 5 (Resolved (BodyMovies (batch 11 10)))].

(** The earlier explorer after its first four fetches brought [A] alone. *)
Definition loaded_v1 : ExplorerV1.State :=
  ExplorerV1.run
    [ExplorerV1.Mount;
     ExplorerV1.Settle 0
       [ExplorerV1.Movie1 A; ExplorerV1.Rejected1; ExplorerV1.Rejected1;
        ExplorerV1.Rejected1]]
    ExplorerV1.initial.

(** The rating page showing movie 1, movie 2 preloaded, user 7 logged in. *)
Definition rating_page : RatingPage.State :=
  RatingPage.mkState
    (Some (RatingPage.mkMovieData 1 "" "" None [] ""))
    (Some (RatingPage.mkMovieData 2 "" "" None [] ""))
    false None false (RatingPage.mkSnackbar false "")
    (Some (RatingPage.mkUser 7)) [] 0%nat [].

(** The same page with nobody logged in. *)
Definition logged_out : RatingPage.State :=
  RatingPage.mkState
    (Some (RatingPage.mkMovieData 1 "" "" None [] ""))
    (Some (RatingPage.mkMovieData 2 "" "" None [] ""))
    false None false (RatingPage.mkSnackbar false "")
    None [] 0%nat [].

(** The explorer whose first fetch is still outstanding when a skip has
    brought movie 100 and the replenishment after it movies 101 and 102. *)
Definition skipped_ahead : Explorer.State :=
  Explorer.run
    [Explorer.Mount; Explorer.Skip;
     Explorer.Settle 1 (Resolved (BodyMovies [movie_with_id 100]));
     Explorer.QueueEffect;
     Explorer.Settle 1
       (Resolved (BodyMovies [movie_with_id 101; movie_with_id 102]))]
    Explorer.initial.

(** The earlier explorer at mount.  Both effects run after the first
    render and read its state, in which [loadingMovie] is false, so the
    effect that watches the queue replenishes; it comes first here because
    a step reads the state that the steps before it left.  The three
    fetches of the replenishment then settle before the four of
    [initialize]. *)
Definition refilled_v1 : ExplorerV1.State :=
  ExplorerV1.run
    [ExplorerV1.QueueEffect; ExplorerV1.Mount;
     ExplorerV1.Settle 0
       [ExplorerV1.Movie1 B; ExplorerV1.Movie1 C; ExplorerV1.Movie1 D]]
    ExplorerV1.initial.

End Scenario.

Module ExplorerView.

(** What [MovieExplorer.tsx] computes for the screen, and the measures on
    its state that the properties below speak about. *)

Import Explorer.

Definition overviewCharLimit : nat := 150.

(** A string in a condition: the empty string counts as false. *)
Definition truthy (s : string) : bool := negb (s =? "")%string.

Definition placeholder : string :=
  "https://via.placeholder.com/300x450?text=No+Image".

Definition getPosterUrl (path : option string) : string :=
  match path with
  | Some p =>
      if truthy p && String.prefix "https://" p then p
      else if negb (truthy p) then placeholder
      else String.append "https://image.tmdb.org/t/p/w500" p
  | None => placeholder
  end.

(** [typeof genre === 'string' ? genre : genre.name] *)
Definition genreName (g : Genre) : string :=
  match g with
  | GenreName s => s
  | GenreObj _ name => name
  end.

(** The labels of the genre chips; [None] when nothing is rendered. *)
Definition renderGenres (current : option Movie) : option (list string) :=
  match current with
  | Some m =>
      match genres m with
      | [] => None
      | _ :: _ => Some (map genreName (genres m))
      end
  | None => None
  end.

Definition truncatedOverview (expanded : bool) (overview : string) : string :=
  let needsTruncation := (overviewCharLimit <? String.length overview)%nat in
  if needsTruncation && negb expanded
  then String.append (substring 0 overviewCharLimit overview) "..."
  else overview.

(** The four returns of the component, in the order it tests for them. *)
Inductive Screen :=
| LoadingScreen
| ErrorScreen (msg : string)
| EmptyScreen
| ReadyScreen (movie : Movie) (shown_overview : string).

Definition ready (s : State) : Screen :=
  match currentMovie s with
  | None => EmptyScreen
  | Some m => ReadyScreen m (truncatedOverview (expanded s) (overview m))
  end.

Definition render (s : State) : Screen :=
  if loadingMovie s then LoadingScreen
  else
    match error s with
    | Some msg => if truthy msg then ErrorScreen msg else ready s
    | None => ready s
    end.

(** [toggleExpanded] *)
Definition toggleExpanded (s : State) : State :=
  setExpanded (negb (expanded s)) s.

(** Promises of [fetchMovies]. *)
Definition is_fetch (p : Pending) : bool :=
  match p with
  | PRating => false
  | _ => true
  end.

(** The movie ids of the ratings sent so far. *)
Definition posted (s : State) : list Z :=
  omap (fun r => match r with Post i _ => Some i | _ => None end)
    (requests s).

(** The ratings sent so far. *)
Definition posted_ratings (s : State) : list Z :=
  omap (fun r => match r with Post _ v => Some v | _ => None end)
    (requests s).

(** The [ignore] lists of the fetches sent so far. *)
Definition ignored (s : State) : list (list Z) :=
  omap (fun r => match r with Get _ (Some ig) => Some ig | _ => None end)
    (requests s).

(** The error screen is due once the loading state is off. *)
Definition error_shown (s : State) : bool :=
  match error s with
  | Some msg => truthy msg
  | None => false
  end.

(** Every movie the component holds was delivered by a fetch. *)
Definition known (s : State) : Prop :=
  (forall m, m ∈ movieQueue s -> id m ∈ seenMovieIds s) /\
  (forall m, currentMovie s = Some m -> id m ∈ seenMovieIds s).

End ExplorerView.

Module Api.

(** [ApiContext]: the functions behind [api.get] and [api.post]. *)

(** The [message] property of a body.  [handleResponse] reads it without
    a type: [||] tests it and [new Error] turns it into a string.  A value
    that is not a string is kept by these two observations; the empty array
    is [MessageOther true ""], [null] is [MessageOther false "null"]. *)
Inductive Message :=
| NoMessage
| MessageString (msg : string)
| MessageOther (truthy : bool) (text : string).

(** A parsed body: an array, [null], or anything else, of which only
    [message] is read. *)
Inductive Json :=
| JsonMovies (movies : list Movie)
| JsonObject (message : Message)
| JsonNull.

(** A response as [handleResponse] reads it; [body] is [None] when
    [response.json()] rejects. *)
Record Response := mkResponse {
  status : Z;
  ok : bool;
  body : option Json;
}.

(** What a rejected call carries. *)
Inductive Failure :=
| ErrorMessage (msg : string)
| SyntaxError
| TypeError.

(** The left operand of [data.message || 'An error occurred'] as
    [new Error] reads it, [None] when [||] passes it over. *)
Definition message_of (data : Json) : option string :=
  match data with
  | JsonObject (MessageString msg) =>
      if ExplorerView.truthy msg then Some msg else None
  | JsonObject (MessageOther true text) => Some text
  | _ => None
  end.

Definition handleResponse (response : Response) : Json + Failure :=
  if status response =? 204 then inl (JsonObject NoMessage)
  else
    match body response with
    | None => inr SyntaxError
    | Some data =>
        if negb (ok response) then
          match data with
          | JsonNull => inr TypeError
          | _ =>
              inr (ErrorMessage
                     (default "An error occurred"%string (message_of data)))
          end
        else inl data
    end.

(** [get] and [post]: [fetch] rejects ([None]) or gives a response. *)
Definition call (answer : option Response) : Json + Failure :=
  match answer with
  | None => inr TypeError
  | Some response => handleResponse response
  end.

(** What the explorer sees of a call. *)
Definition reply (answer : option Response) : Reply :=
  match call answer with
  | inl (JsonMovies movies) => Resolved (BodyMovies movies)
  | inl _ => Resolved BodyOther
  | inr _ => Rejected
  end.

Definition getHeaders (token : option string) : list (string * string) :=
  ("Content-Type", "application/json")%string
  :: match token with
     | Some t =>
         if ExplorerView.truthy t
         then [("Authorization"%string, String.append "Bearer " t)]
         else []
     | None => []
     end.

End Api.

Module Auth.

(** [AuthContext]: the session that [ApiContext] takes its token from. *)

Record User := mkUser {
  email : string;
  disabled : option bool;
  name : option string;
  avatar : option string;
}.

(** The answer to [GET /users/me]; the body is [None] for [null].
    [MeFailed]: [fetch] rejects or the body cannot be read, which the
    [catch] of [fetchUserData] handles. *)
Inductive MeAnswer :=
| MeOk (body : option User)
| MeNotOk
| MeFailed.

(** The answer to [POST /token].  [login] reads [data.access_token]
    without checking it.  [TokenOk]: an ok response with a string for it (a
    truthy value of another type behaves as its text).  [TokenFalsy]: an ok
    response of which it is missing, [null], [false] or [0]; [text] is what
    [localStorage.setItem] makes of that value, ["undefined"] for a missing
    one.  [TokenFailed]: [fetch] rejects, the body of an ok response cannot
    be read or is [null], which the [catch] of [login] handles. *)
Inductive TokenAnswer :=
| TokenOk (access_token : string)
| TokenFalsy (text : string)
| TokenNotOk
| TokenFailed.

(** The answer to [POST /register]; [detail] is read from the body of a
    response that is not ok.  [RegisterFailed]: [fetch] rejects or that
    body cannot be read, which the [catch] of [register] handles. *)
Inductive RegisterAnswer :=
| RegisterResponse (status : Z) (ok : bool) (detail : option string)
| RegisterFailed.

Record Result := mkResult { success : bool; message : option string }.

(** [storage] is the entry ['token'] of [localStorage]; [token] is [None]
    for [null] and for the falsy values that [TokenFalsy] stands for, which
    the code, testing [if (token)] only, does not tell apart. *)
Record State := mkState {
  currentUser : option User;
  token : option string;
  loading : bool;
  storage : option string;
  console : list string;
}.

Definition initial (stored : option string) : State :=
  {| currentUser := None; token := stored; loading := true;
     storage := stored; console := [] |}.

Definition isAuthenticated (s : State) : bool :=
  match currentUser s with
  | Some _ => true
  | None => false
  end.

Definition fetchUserData (answer : MeAnswer) (s : State) : option User * State :=
  match answer with
  | MeOk body => (body, s)
  | MeNotOk => (None, s)
  | MeFailed =>
      (None,
       mkState (currentUser s) (token s) (loading s) (storage s)
         (console s ++ ["Error fetching user data:"%string]))
  end.

Definition logout (s : State) : State :=
  mkState None None (loading s) None (console s).

(** The effect on [token]; it reads the token of its render. *)
Definition checkLoggedIn (answer : MeAnswer) (s : State) : State :=
  let s1 :=
    match token s with
    | Some t =>
        if ExplorerView.truthy t then
          match fetchUserData answer s with
          | (Some userData, s') =>
              mkState (Some userData) (token s') (loading s') (storage s')
                (console s')
          | (None, s') => logout s'
          end
        else s
    | None => s
    end in
  mkState (currentUser s1) (token s1) false (storage s1) (console s1).

(** [login] from [setToken(authToken)] on; [held] is what the state gets
    and [stored] what [localStorage] gets. *)
Definition login_granted (held : option string) (stored : string)
    (meAnswer : MeAnswer) (s : State) : Result * State :=
  let s1 :=
    mkState (currentUser s) held (loading s) (Some stored) (console s) in
  match fetchUserData meAnswer s1 with
  | (Some userData, s2) =>
      (mkResult true None,
       mkState (Some userData) (token s2) (loading s2) (storage s2)
         (console s2))
  | (None, s2) =>
      (mkResult false (Some "Invalid email or password"%string), s2)
  end.

Definition login (tokenAnswer : TokenAnswer) (meAnswer : MeAnswer)
    (s : State) : Result * State :=
  match tokenAnswer with
  | TokenOk authToken => login_granted (Some authToken) authToken meAnswer s
  | TokenFalsy text => login_granted None text meAnswer s
  | TokenNotOk => (mkResult false (Some "Invalid email or password"%string), s)
  | TokenFailed =>
      (mkResult false (Some "An error occurred during login"%string),
       mkState (currentUser s) (token s) (loading s) (storage s)
         (console s ++ ["Login error:"%string]))
  end.

Definition register (answer : RegisterAnswer) (tokenAnswer : TokenAnswer)
    (meAnswer : MeAnswer) (s : State) : Result * State :=
  match answer with
  | RegisterResponse status ok detail =>
      if status =? 201 then login tokenAnswer meAnswer s
      else if negb ok then
        (mkResult false
           (Some (match detail with
                  | Some d => if ExplorerView.truthy d then d
                              else "Registration failed"%string
                  | None => "Registration failed"%string
                  end)), s)
      else (mkResult true None, s)
  | RegisterFailed =>
      (mkResult false (Some "An error occurred during registration"%string),
       mkState (currentUser s) (token s) (loading s) (storage s)
         (console s ++ ["Registration error:"%string]))
  end.

(** What the session does, one call at a time. *)
Inductive Event :=
| CheckLoggedIn (answer : MeAnswer)
| Login (tokenAnswer : TokenAnswer) (meAnswer : MeAnswer)
| Register (answer : RegisterAnswer) (tokenAnswer : TokenAnswer)
    (meAnswer : MeAnswer)
| Logout.

Definition step (e : Event) (s : State) : State :=
  match e with
  | CheckLoggedIn answer => checkLoggedIn answer s
  | Login t m => (login t m s).2
  | Register a t m => (register a t m s).2
  | Logout => logout s
  end.

Definition run (es : list Event) (s : State) : State :=
  fold_left (fun st e => step e st) es s.

(** The calls in which an ok answer to [POST /token], when the call gets
    one, carries a string, as [LoginResponse] declares; [register] asks
    for a token after a 201 only. *)
Definition typed (e : Event) : bool :=
  match e with
  | Login (TokenFalsy _) _ => false
  | Register (RegisterResponse status _ _) (TokenFalsy _) _ =>
      negb (status =? 201)
  | _ => true
  end.

End Auth.

Module RatingPageView.

(** The effects and the remaining handlers of the rating page, and
    [submitRating] of [App]. *)

Import RatingPage.

(** The effect on [movieData] that starts a preload. *)
Definition preloadEffect (s : State) : State :=
  match movieData s with
  | Some m =>
      if negb (id m =? 0)
         && (match nextMovieData s with None => true | Some _ => false end)
      then setTasks (fun ts => ts ++ [TPreload]) s
      else s
  | None => s
  end.

(** [setSnackbar({...snackbar, open: false})] *)
Definition handleCloseSnackbar (s : State) : State :=
  setSnackbar (mkSnackbar false (message (snackbar s))) s.

(** [submitRating] of [App] up to its [await] on the POST: [None] when the
    guard returns, else the payload that is sent.  [selectedUser] is never
    null there; [user_id] is its id. *)
Definition legacy_submitRating (user_id : Z) (selectionValue : Rating)
    (s : State) : option Payload * State :=
  match movieData s with
  | None =>
      (None,
       setSnackbar
         (mkSnackbar true "Cannot submit rating: Movie ID not available") s)
  | Some m =>
      if id m =? 0 then
        (None,
         setSnackbar
           (mkSnackbar true "Cannot submit rating: Movie ID not available") s)
      else
        (Some (mkPayload user_id (id m) (selectionToRating selectionValue)),
         setSubmitting true s)
  end.

(** From the [await] on; [seen_next] is the [nextMovieData] of the render
    that created the closure, [ok] tells whether the POST resolved with
    [response.ok]. *)
Definition legacy_submitRating_rest (ok : bool)
    (seen_next : option MovieData) (seen_movie : option MovieData)
    (s : State) : State :=
  let s1 :=
    if ok then
      match seen_next with
      | Some next =>
          setTasks (fun ts => ts ++ [TPreload])
            (setLoading false
               (setNextMovieData None (setMovieData (Some next) s)))
      | None =>
          setTasks (fun ts => ts ++ [TFetchNext seen_movie])
            (setLoading true s)
      end
    else
      setSnackbar
        (mkSnackbar true "Failed to submit rating. Please try again.")
        (log "Error submitting rating:" s) in
  setSubmitting false s1.

(** The pauses after the turns [c + 1], ..., [c + k] of the retry loop. *)
Definition pauses (c k : nat) : list Z :=
  map (fun j => 1000 * Z.of_nat j) (seq (S c) k).

(** What the result of [fetchMovieFromAPI] says about the answer to its
    last request, request number [last] of the upstream, when that was its
    attempt number [attempt]. *)
Definition explains (upstream : nat -> Response) (last attempt : nat)
    (result : option MovieData + Exn) : Prop :=
  match result with
  | inl (Some m) =>
      exists data,
        upstream last = Json data /\ transient data = false /\
        m = processMovieData data
  | inl None =>
      attempt = maxRetries /\
      exists data, upstream last = Json data /\ transient data = true
  | inr e =>
      attempt = maxRetries /\
      ((exists msg, upstream last = NetworkError msg /\ e = Error msg) \/
       (exists status, upstream last = HttpError status /\
                       e = status_error status))
  end.

(** The characters of a string. *)
Definition chars (s : string) : list Ascii.ascii := list_ascii_of_string s.

End RatingPageView.

(** * Properties of [Explorer] *)

Module ExplorerFacts.

Import Explorer.

(** ** Runs *)

Lemma run_snoc (es : list Event) (e : Event) (s : State) :
  run (es ++ [e]) s = step e (run es s).
Proof. unfold run. rewrite fold_left_app. reflexivity. Qed.

Lemma run_app (es1 es2 : list Event) (s : State) :
  run (es1 ++ es2) s = run es2 (run es1 s).
Proof. unfold run. apply fold_left_app. Qed.

Lemma run_invariant (P : State -> Prop) (s0 : State) :
  P s0 ->
  (forall e s, P s -> P (step e s)) ->
  forall es, P (run es s0).
Proof.
  intros H0 Hstep es. induction es as [|e es IH] using rev_ind.
  - exact H0.
  - rewrite run_snoc. apply Hstep, IH.
Qed.

(** ** What [fetchMovies] leaves alone *)

Lemma fetchMovies_resume_frame (r : Reply) (s : State) :
  let s' := (fetchMovies_resume r s).2 in
  currentMovie s' = currentMovie s /\
  movieQueue s' = movieQueue s /\
  loadingMovie s' = loadingMovie s /\
  error s' = error s /\
  isInitialMount s' = isInitialMount s /\
  isReplenishing s' = isReplenishing s /\
  pending s' = pending s /\
  requests s' = requests s.
Proof.
  destruct r as [[[|m ms]|]|]; cbn; repeat split; reflexivity.
Qed.

(** ** Counting outstanding promises *)

Lemma filter_length_app (f : Pending -> bool) (ps qs : list Pending) :
  length (List.filter f (ps ++ qs))
  = (length (List.filter f ps) + length (List.filter f qs))%nat.
Proof. rewrite List.filter_app, length_app. reflexivity. Qed.

Lemma filter_length_delete (f : Pending -> bool) (ps : list Pending)
    (i : nat) (p : Pending) :
  ps !! i = Some p ->
  length (List.filter f ps)
  = (length (List.filter f (delete i ps)) + if f p then 1 else 0)%nat.
Proof.
  revert i. induction ps as [|q ps IH]; intros [|i] Hi; try discriminate.
  - cbn in Hi. injection Hi as ->. cbn. destruct (f p); cbn; lia.
  - cbn in Hi. cbn. specialize (IH i Hi).
    destruct (f q); cbn; rewrite IH; reflexivity.
Qed.

Lemma guard_inv_initial : guard_inv initial.
Proof. reflexivity. Qed.

Lemma guard_inv_replenishQueue (s : State) :
  guard_inv s -> guard_inv (replenishQueue s).
Proof.
  unfold guard_inv, outstanding, replenishQueue. intros H.
  destruct (isReplenishing s) eqn:E; [rewrite E; exact H|].
  destruct (Z.of_nat (length (movieQueue s)) <? 2); cbn;
    rewrite filter_length_app, H; reflexivity.
Qed.

Lemma guard_inv_moveToNextMovie (s : State) :
  guard_inv s -> guard_inv (moveToNextMovie s).
Proof.
  unfold guard_inv, outstanding, moveToNextMovie. intros H.
  destruct (movieQueue s); [|exact H].
  destruct (isReplenishing s) eqn:E; cbn; [rewrite E; exact H|].
  rewrite filter_length_app, H. reflexivity.
Qed.

Lemma guard_inv_settle (i : nat) (r : Reply) (s : State) :
  guard_inv s -> guard_inv (settle i r s).
Proof.
  unfold guard_inv, outstanding, settle. intros H.
  destruct (pending s !! i) as [p|] eqn:Hi; [|exact H].
  rewrite (filter_length_delete holds_guard _ _ _ Hi) in H.
  set (s0 := setPending (delete i) s).
  assert (Hp : pending s0 = delete i (pending s)) by reflexivity.
  assert (Hg : isReplenishing s0 = isReplenishing s) by reflexivity.
  rewrite <- Hp, <- Hg in H. clearbody s0. clear Hp Hg Hi.
  destruct (fetchMovies_resume_frame r s0)
    as (_ & _ & _ & _ & _ & Hfg & Hfp & _).
  destruct p; cbn [resume holds_guard] in *.
  - unfold initialize_resume.
    destruct (fetchMovies_resume r s0) as [[|m [|m' ms]] s1]; cbn in *;
      rewrite Hfp, Hfg; lia.
  - unfold replenishQueue_resume.
    destruct (fetchMovies_resume r s0) as [[|m ms] s1]; cbn in *;
      rewrite Hfp; destruct (isReplenishing s0); lia.
  - unfold moveToNextMovie_resume.
    destruct (fetchMovies_resume r s0) as [[|m ms] s1]; cbn in *;
      rewrite Hfp; destruct (isReplenishing s0); lia.
  - unfold handleRating_resume. destruct r; cbn; lia.
Qed.

Lemma guard_inv_step (e : Event) (s : State) :
  guard_inv s -> guard_inv (step e s).
Proof.
  intros H. destruct e; cbn [step].
  - unfold initialize. destruct (negb (isInitialMount s)); [exact H|].
    unfold guard_inv, outstanding in *. cbn.
    rewrite filter_length_app. cbn. rewrite H. lia.
  - unfold queueEffect.
    destruct (_ && _); [apply guard_inv_replenishQueue|]; exact H.
  - apply guard_inv_replenishQueue, H.
  - apply guard_inv_moveToNextMovie, H.
  - unfold handleRating. destruct (currentMovie s); [|exact H].
    apply guard_inv_moveToNextMovie in H.
    unfold guard_inv, outstanding in *. cbn.
    rewrite filter_length_app. cbn. rewrite H. lia.
  - apply guard_inv_settle, H.
Qed.

Lemma guard_inv_run (es : list Event) : guard_inv (run es initial).
Proof. apply run_invariant; [exact guard_inv_initial | exact guard_inv_step]. Qed.

Lemma filter_length_mono (ps : list Pending) :
  (length (List.filter is_replenish ps)
   <= length (List.filter holds_guard ps))%nat.
Proof.
  induction ps as [|p ps IH]; cbn; [lia|]. destruct p; cbn; lia.
Qed.

Lemma filter_length_pos (f : Pending -> bool) (p : Pending)
    (ps : list Pending) :
  p ∈ ps -> f p = true -> (0 < length (List.filter f ps))%nat.
Proof.
  intros Hin Hf. induction Hin as [p ps|p q ps _ IH]; cbn.
  - rewrite Hf. cbn. lia.
  - destruct (f q); cbn; auto with arith.
Qed.

(** ** The guard of [replenishQueue] *)

Lemma replenishQueue_guarded (s : State) :
  isReplenishing s = true -> replenishQueue s = s.
Proof. unfold replenishQueue. intros ->. reflexivity. Qed.

Lemma replenish_pending_guarded (es : list Event) :
  PReplenish ∈ pending (run es initial) ->
  isReplenishing (run es initial) = true.
Proof.
  intros Hin. pose proof (guard_inv_run es) as H.
  pose proof (filter_length_pos holds_guard _ _ Hin eq_refl) as Hpos.
  unfold guard_inv, outstanding in H.
  destruct (isReplenishing (run es initial)); [reflexivity | lia].
Qed.

Lemma replenish_outstanding_le_1 (es : list Event) :
  (outstanding is_replenish (run es initial) <= 1)%nat.
Proof.
  pose proof (guard_inv_run es) as H.
  pose proof (filter_length_mono (pending (run es initial))) as Hm.
  unfold guard_inv, outstanding in *.
  destruct (isReplenishing (run es initial)); lia.
Qed.

(** ** [moveToNextMovie] and [handleRating] on a filled queue *)

Lemma moveToNextMovie_pops (s : State) (a : Movie) (rest : list Movie) :
  movieQueue s = a :: rest ->
  moveToNextMovie s
  = setExpanded false
      (setMovieQueue (fun _ => rest) (setCurrentMovie (Some a) s)).
Proof.
  intros Hq. unfold moveToNextMovie, setMovieQueue. rewrite Hq. cbn.
  rewrite Hq. reflexivity.
Qed.

Lemma handleRating_advances (v : Rating) (s : State) (x a : Movie)
    (rest : list Movie) :
  currentMovie s = Some x ->
  movieQueue s = a :: rest ->
  let s' := handleRating v s in
  currentMovie s' = Some a /\
  movieQueue s' = rest /\
  pending s' = pending s ++ [PRating] /\
  requests s' = requests s ++ [Post (id x) (numericRating v)] /\
  error s' = error s /\
  loadingMovie s' = loadingMovie s /\
  console s' = console s.
Proof.
  intros Hc Hq. cbn zeta. unfold handleRating. rewrite Hc.
  rewrite (moveToNextMovie_pops s a rest Hq). cbn. repeat split; reflexivity.
Qed.

(** ** Settling the write of a rating *)

Lemma settle_rating (s : State) (i : nat) (r : Reply) :
  pending s !! i = Some PRating ->
  let s' := settle i r s in
  currentMovie s' = currentMovie s /\
  movieQueue s' = movieQueue s /\
  seenMovieIds s' = seenMovieIds s /\
  error s' = error s /\
  loadingMovie s' = loadingMovie s /\
  console s'
  = console s ++ match r with
                 | Rejected => ["Failed to save rating:"%string]
                 | Resolved _ => []
                 end.
Proof.
  intros Hi. cbn zeta. unfold settle. rewrite Hi. cbn [resume].
  destruct r; cbn; rewrite ?app_nil_r; repeat split; reflexivity.
Qed.

(** ** Settling the fetch of [replenishQueue] *)

Lemma fetchMovies_resume_movies (r : Reply) (s : State) :
  (fetchMovies_resume r s).1 = map normalizeMovie (fetched r) /\
  seenMovieIds (fetchMovies_resume r s).2
  = seenMovieIds s ++ map id (fetched r).
Proof.
  destruct r as [[[|m ms]|]|]; cbn; rewrite ?app_nil_r; split; reflexivity.
Qed.

Lemma replenishQueue_resume_frame (r : Reply) (s : State) :
  let s' := replenishQueue_resume r s in
  currentMovie s' = currentMovie s /\
  error s' = error s /\
  movieQueue s' = movieQueue s ++ map normalizeMovie (fetched r) /\
  seenMovieIds s' = seenMovieIds s ++ map id (fetched r).
Proof.
  cbn zeta. unfold replenishQueue_resume.
  destruct (fetchMovies_resume_movies r s) as [Hm Hs].
  destruct (fetchMovies_resume_frame r s) as (Hc & Hq & _ & He & _).
  destruct (fetchMovies_resume r s) as [ms s1]. cbn in *. subst ms.
  destruct (map normalizeMovie (fetched r)) as [|m ms] eqn:E; cbn;
    rewrite ?app_nil_r, ?Hc, ?He, ?Hq, ?Hs; repeat split; reflexivity.
Qed.

Lemma replenishQueue_frame (s : State) :
  let s' := replenishQueue s in
  currentMovie s' = currentMovie s /\
  error s' = error s /\
  movieQueue s' = movieQueue s /\
  seenMovieIds s' = seenMovieIds s.
Proof.
  cbn zeta. unfold replenishQueue.
  destruct (isReplenishing s); [repeat split; reflexivity|].
  destruct (Z.of_nat (length (movieQueue s)) <? 2); cbn;
    repeat split; reflexivity.
Qed.

Lemma replenishQueue_loading (s : State) :
  let s' := replenishQueue s in
  expanded s' = expanded s /\
  loadingMovie s'
  = (if isReplenishing s then loadingMovie s
     else (Z.of_nat (length (movieQueue s)) <? 2) || loadingMovie s).
Proof.
  cbn zeta. unfold replenishQueue.
  destruct (isReplenishing s); [split; reflexivity|].
  destruct (Z.of_nat (length (movieQueue s)) <? 2); cbn; split; reflexivity.
Qed.

Lemma replenishQueue_resume_loading (r : Reply) (s : State) :
  let s' := replenishQueue_resume r s in
  expanded s' = expanded s /\
  loadingMovie s' = false /\
  isReplenishing s' = false.
Proof.
  cbn zeta. unfold replenishQueue_resume.
  destruct r as [[[|m ms]|]|]; cbn; repeat split; reflexivity.
Qed.

(** ** The list of seen identifiers *)

Lemma seen_step (e : Event) (s : State) :
  seenMovieIds (step e s) = seenMovieIds s ++ seen_delta s e.
Proof.
  destruct e; cbn [step seen_delta]; rewrite ?app_nil_r.
  - unfold initialize. destruct (negb _); reflexivity.
  - unfold queueEffect. destruct (_ && _); [|reflexivity].
    apply replenishQueue_frame.
  - apply replenishQueue_frame.
  - unfold moveToNextMovie. destruct (movieQueue s); [|reflexivity].
    destruct (negb _); reflexivity.
  - unfold handleRating. destruct (currentMovie s); [|reflexivity].
    unfold moveToNextMovie. destruct (movieQueue s); [|reflexivity].
    destruct (negb _); reflexivity.
  - unfold settle. destruct (pending s !! i) as [p|]; [|by rewrite app_nil_r].
    set (s0 := setPending (delete i) s).
    change (seenMovieIds s) with (seenMovieIds s0).
    destruct (fetchMovies_resume_movies r s0) as [_ Hs].
    destruct p; cbn [resume].
    + unfold initialize_resume.
      destruct (fetchMovies_resume r s0) as [[|m [|m' ms]] s1]; exact Hs.
    + unfold replenishQueue_resume.
      destruct (fetchMovies_resume r s0) as [[|m ms] s1]; exact Hs.
    + unfold moveToNextMovie_resume.
      destruct (fetchMovies_resume r s0) as [[|m ms] s1]; exact Hs.
    + unfold handleRating_resume. destruct r; by rewrite app_nil_r.
Qed.

Lemma seen_run_prefix (es : list Event) (s : State) :
  seenMovieIds s `prefix_of` seenMovieIds (run es s).
Proof.
  induction es as [|e es IH] using rev_ind; [reflexivity|].
  rewrite run_snoc, seen_step. by apply prefix_app_r.
Qed.

Lemma seen_no_dup_run (es : list Event) (s : State) :
  NoDup (seenMovieIds s) ->
  never_repeats es s ->
  NoDup (seenMovieIds (run es s)).
Proof.
  revert s. induction es as [|e es IH]; intros s Hnd Hfresh; [exact Hnd|].
  destruct Hfresh as [He Hes]. change (run (e :: es) s) with (run es (step e s)).
  apply IH; [|exact Hes]. rewrite seen_step.
  destruct e; cbn [seen_delta fresh_reply] in *; rewrite ?app_nil_r; try exact Hnd.
  destruct (pending s !! i) as [[]|]; rewrite ?app_nil_r; try exact Hnd;
    destruct He as [Hids Hnew]; apply NoDup_app; (split; [exact Hnd|]);
    (split; [intros x Hx Hx'; exact (Hnew x Hx' Hx) | exact Hids]).
Qed.

(** ** [initialize] *)

Lemma initialize_resume_post (r : Reply) (s : State) :
  let s' := initialize_resume r s in
  loadingMovie s' = false /\
  isInitialMount s' = false /\
  match fetched r with
  | first :: rest =>
      currentMovie s' = Some (normalizeMovie first) /\
      movieQueue s'
      = (match rest with
         | [] => movieQueue s
         | _ :: _ => map normalizeMovie rest
         end) /\
      error s' = error s
  | [] =>
      currentMovie s' = currentMovie s /\
      movieQueue s' = movieQueue s /\
      error s' = Some "Failed to fetch movies"%string
  end.
Proof.
  cbn zeta. unfold initialize_resume.
  destruct r as [[[|m [|m' ms]]|]|]; cbn; repeat split; reflexivity.
Qed.

Lemma initialize_settled (r : Reply) :
  let s := settle 0 r (initialize initial) in
  loadingMovie s = false /\
  match fetched r with
  | first :: rest =>
      currentMovie s = Some (normalizeMovie first) /\
      movieQueue s = map normalizeMovie rest /\
      error s = None
  | [] =>
      currentMovie s = None /\
      movieQueue s = [] /\
      error s = Some "Failed to fetch movies"%string
  end.
Proof.
  cbn zeta. destruct r as [[[|m [|m' ms]]|]|]; cbn; repeat split; reflexivity.
Qed.

(** ** [moveToNextMovie] on an empty queue *)




(** ** The length of the queue *)

Lemma outstanding_snoc (f : Pending -> bool) (s : State) (p : Pending)
    (ps : list Pending) :
  pending s = ps ++ [p] ->
  outstanding f s
  = (length (List.filter f ps) + if f p then 1 else 0)%nat.
Proof.
  unfold outstanding. intros ->. rewrite filter_length_app. cbn.
  destruct (f p); reflexivity.
Qed.

Lemma queue_inv_replenishQueue (s : State) :
  Z.of_nat (length (movieQueue s)) < MIN_QUEUE_SIZE ->
  queue_inv s -> queue_inv (replenishQueue s).
Proof.
  unfold queue_inv, MIN_QUEUE_SIZE, FETCH_SIZE. intros Hlt [H1 H2].
  destruct (replenishQueue_frame s) as (_ & _ & Hq & _). cbn zeta in Hq.
  rewrite Hq. split; intros; lia.
Qed.

Lemma queue_inv_moveToNextMovie (s : State) :
  queue_inv s -> queue_inv (moveToNextMovie s).
Proof.
  unfold queue_inv, moveToNextMovie. intros [H1 H2].
  destruct (movieQueue s) as [|a rest] eqn:Hq.
  - destruct (negb (isReplenishing s)); cbn; rewrite ?Hq; [|auto].
    split; [|exact H2]. intros _. unfold FETCH_SIZE. cbn. lia.
  - unfold outstanding in *. cbn in *. rewrite Hq. cbn.
    rewrite drop_0. split; [intros Hp; specialize (H1 Hp)|]; lia.
Qed.

Lemma queue_inv_settle (i : nat) (r : Reply) (s : State) :
  Z.of_nat (length (fetched r)) <= FETCH_SIZE ->
  guard_inv s -> queue_inv s -> queue_inv (settle i r s).
Proof.
  unfold queue_inv, settle, FETCH_SIZE. intros Hr Hg [H1 H2].
  destruct (pending s !! i) as [p|] eqn:Hi; [|auto].
  pose proof (filter_length_delete is_replenish _ _ _ Hi) as Hdel.
  pose proof (filter_length_delete holds_guard _ _ _ Hi) as Hdel'.
  pose proof (filter_length_mono (delete i (pending s))) as Hmono.
  unfold guard_inv, outstanding in *.
  set (s0 := setPending (delete i) s) in *.
  change (delete i (pending s)) with (pending s0) in *.
  change (movieQueue s) with (movieQueue s0) in *.
  destruct (fetchMovies_resume_frame r s0)
    as (_ & Hfq & _ & _ & _ & _ & Hfp & _).
  destruct (fetchMovies_resume_movies r s0) as [Hfm _].
  destruct p; cbn [resume is_replenish holds_guard] in *.
  - unfold initialize_resume.
    destruct (fetchMovies_resume r s0) as [ms s1]. cbn in Hfq, Hfp, Hfm.
    assert (Hlen : Z.of_nat (length ms) <= 10)
      by (subst ms; rewrite length_map; exact Hr).
    destruct ms as [|m [|m' ms]]; cbn -[Z.of_nat] in *; rewrite ?Hfp, ?Hfq;
      (split; [intros Hp|]; try lia).
    all: apply H1; lia.
  - unfold replenishQueue_resume.
    destruct (fetchMovies_resume r s0) as [ms s1]. cbn in Hfq, Hfp, Hfm.
    assert (Hlen : Z.of_nat (length ms) <= 10)
      by (subst ms; rewrite length_map; exact Hr).
    assert (Hz : length (List.filter is_replenish (pending s0)) = 0%nat)
      by (destruct (isReplenishing s); lia).
    assert (Hq9 : Z.of_nat (length (movieQueue s0)) <= 9) by (apply H1; lia).
    destruct ms as [|m ms]; cbn -[Z.of_nat] in *;
      rewrite ?Hfp, ?Hfq, ?length_app;
      (split; [intros Hp|]; cbn -[Z.of_nat] in *; lia).
  - unfold moveToNextMovie_resume.
    destruct (fetchMovies_resume r s0) as [[|m ms] s1];
      cbn -[Z.of_nat] in *; rewrite ?Hfp, ?Hfq;
      (split; [intros Hp; apply H1|]; lia).
  - unfold handleRating_resume.
    destruct r; cbn -[Z.of_nat] in *; (split; [intros Hp; apply H1|]; lia).
Qed.

Lemma queue_inv_step (e : Event) (s : State) :
  by_effect e = true -> within_fetch_size e = true ->
  guard_inv s -> queue_inv s -> queue_inv (step e s).
Proof.
  intros He Hsz Hg H. destruct e; cbn [step]; try discriminate.
  - unfold initialize. destruct (negb (isInitialMount s)); [exact H|].
    unfold queue_inv, outstanding in *. cbn.
    rewrite filter_length_app. cbn. rewrite Nat.add_0_r. exact H.
  - unfold queueEffect.
    destruct (Z.of_nat (length (movieQueue s)) <? MIN_QUEUE_SIZE) eqn:E;
      rewrite ?andb_false_r; cbn [andb]; [|exact H].
    destruct (_ && _); [|exact H].
    apply queue_inv_replenishQueue; [lia | exact H].
  - apply queue_inv_moveToNextMovie, H.
  - unfold handleRating. destruct (currentMovie s); [|exact H].
    apply queue_inv_moveToNextMovie in H.
    unfold queue_inv, outstanding in *. cbn.
    rewrite filter_length_app. cbn. rewrite Nat.add_0_r. exact H.
  - apply queue_inv_settle; [|exact Hg|exact H]. cbn in Hsz. lia.
Qed.

Lemma queue_inv_run (es : list Event) :
  forallb by_effect es = true ->
  forallb within_fetch_size es = true ->
  queue_inv (run es initial).
Proof.
  induction es as [|e es IH] using rev_ind; intros He Hsz.
  - split; cbn; unfold FETCH_SIZE; lia.
  - rewrite forallb_app in He, Hsz. cbn in He, Hsz.
    apply andb_true_iff in He as [He1 He2], Hsz as [Hs1 Hs2].
    rewrite andb_true_r in He2, Hs2.
    rewrite run_snoc. apply queue_inv_step; auto using guard_inv_run.
Qed.

(** The bound is reached: the user skips while the first fetch is on its
    way, the effect replenishes behind the single movie that the skip
    brought, and both batches of ten arrive. *)
Example queue_reaches_two_batches :
  let es :=
    [Mount; Skip; Settle 1 (Resolved (BodyMovies [movie_with_id 100]));
     QueueEffect;
     Settle 0 (Resolved (BodyMovies (Scenario.batch 1 10)));
     Settle 0 (Resolved (BodyMovies (Scenario.batch 11 10)))] in
  forallb by_effect es = true /\
  forallb within_fetch_size es = true /\
  Z.of_nat (length (movieQueue (run es initial))) = 2 * FETCH_SIZE - 1.
Proof. vm_compute. repeat split; reflexivity. Qed.

End ExplorerFacts.

(** * Properties of [ExplorerV1] *)

Module ExplorerV1Facts.

Import ExplorerV1.

Lemma v1_moveToNextMovie_pops (s : State) (a : Movie) (rest : list Movie) :
  movieQueue s = a :: rest ->
  moveToNextMovie s
  = setExpanded false
      (setMovieQueue (fun _ => rest) (setCurrentMovie (Some a) s)).
Proof.
  intros Hq. unfold moveToNextMovie, setMovieQueue. rewrite Hq. cbn.
  rewrite Hq. reflexivity.
Qed.

Lemma v1_handleRating_advances (v : Rating) (s : State) (x a : Movie)
    (rest : list Movie) :
  currentMovie s = Some x ->
  movieQueue s = a :: rest ->
  let s' := handleRating v s in
  currentMovie s' = Some a /\
  movieQueue s' = rest /\
  pending s' = pending s ++ [PRating] /\
  requests s' = requests s ++ [Post (id x) (numericRating v)] /\
  error s' = error s /\
  console s' = console s.
Proof.
  intros Hc Hq. cbn zeta. unfold handleRating. rewrite Hc.
  rewrite (v1_moveToNextMovie_pops s a rest Hq). cbn.
  repeat split; reflexivity.
Qed.

Lemma v1_settle_rating (s : State) (i : nat) (r : Reply1) :
  pending s !! i = Some PRating ->
  let s' := settle i [r] s in
  currentMovie s' = currentMovie s /\
  movieQueue s' = movieQueue s /\
  error s' = error s /\
  loadingMovie s' = loadingMovie s /\
  console s'
  = console s ++ match r with
                 | Rejected1 => ["Failed to save rating:"%string]
                 | _ => []
                 end.
Proof.
  intros Hi. cbn zeta. unfold settle. rewrite Hi. cbn.
  destruct r; cbn; rewrite ?app_nil_r; repeat split; reflexivity.
Qed.

Lemma v1_initialize_resume_post (rs : list Reply1) (s : State) :
  let s' := initialize_resume rs s in
  loadingMovie s' = false /\
  match validMovies rs with
  | first :: rest =>
      currentMovie s' = Some first /\
      movieQueue s'
      = (match rest with
         | [] => movieQueue s
         | _ :: _ => rest
         end) /\
      error s' = error s
  | [] =>
      currentMovie s' = currentMovie s /\
      movieQueue s' = movieQueue s /\
      error s' = Some "Failed to fetch movies"%string
  end.
Proof.
  cbn zeta. unfold initialize_resume.
  destruct (validMovies rs) as [|m [|m' ms]]; cbn; repeat split; reflexivity.
Qed.

Lemma v1_initialize_settled (rs : list Reply1) :
  length rs = (QUEUE_SIZE + 1)%nat ->
  let s := settle 0 rs (initialize initial) in
  loadingMovie s = false /\
  match validMovies rs with
  | first :: rest =>
      currentMovie s = Some first /\ movieQueue s = rest /\ error s = None
  | [] =>
      currentMovie s = None /\
      movieQueue s = [] /\
      error s = Some "Failed to fetch movies"%string
  end.
Proof.
  intros Hlen. cbn zeta. unfold settle.
  change (pending (initialize initial) !! 0%nat)
    with (Some (PInitialize (QUEUE_SIZE + 1))).
  cbn [arity]. rewrite Hlen, Nat.eqb_refl. cbn [resume].
  unfold initialize_resume.
  destruct (validMovies rs) as [|m [|m' ms]]; cbn; repeat split; reflexivity.
Qed.



Lemma v1_replenishQueue_frame (s : State) :
  let s' := replenishQueue s in
  currentMovie s' = currentMovie s /\
  error s' = error s /\
  movieQueue s' = movieQueue s.
Proof.
  cbn zeta. unfold replenishQueue.
  destruct (_ <? _)%nat; cbn; repeat split; reflexivity.
Qed.

Lemma v1_replenishQueue_resume_frame (rs : list Reply1) (s : State) :
  let s' := replenishQueue_resume rs s in
  currentMovie s' = currentMovie s /\
  error s' = error s /\
  movieQueue s' = movieQueue s ++ validMovies rs.
Proof.
  cbn zeta. unfold replenishQueue_resume.
  destruct (validMovies rs) as [|m ms]; cbn; rewrite ?app_nil_r;
    repeat split; reflexivity.
Qed.

Lemma v1_replenishQueue_quiet (s : State) :
  let s' := replenishQueue s in
  loadingMovie s' = loadingMovie s /\ expanded s' = expanded s.
Proof.
  cbn zeta. unfold replenishQueue.
  destruct (_ <? _)%nat; cbn; split; reflexivity.
Qed.

Lemma v1_replenishQueue_resume_quiet (rs : list Reply1) (s : State) :
  let s' := replenishQueue_resume rs s in
  loadingMovie s' = loadingMovie s /\ expanded s' = expanded s.
Proof.
  cbn zeta. unfold replenishQueue_resume.
  destruct (validMovies rs) as [|m ms]; cbn; split; reflexivity.
Qed.

(** Without a guard two replenishments overlap, each sized for the queue it
    saw, and the queue grows beyond [QUEUE_SIZE]. *)
Example v1_queue_exceeds_queue_size :
  let es :=
    [Mount;
     Settle 0 [Movie1 Scenario.A; Movie1 Scenario.B; Movie1 Scenario.C;
               Movie1 Scenario.D];
     Rate yes; QueueEffect; Rate yes; QueueEffect;
     Settle 1 [Movie1 (movie_with_id 5)];
     Settle 2 [Movie1 (movie_with_id 6); Movie1 (movie_with_id 7)]] in
  length (movieQueue (run es initial)) = 4%nat /\ QUEUE_SIZE = 3%nat.
Proof. vm_compute. split; reflexivity. Qed.

End ExplorerV1Facts.

(** * Properties of [RatingPage] and [LegacyApp] *)

Module RatingPageFacts.

Import RatingPage.

(** ** Reading a trace *)

Lemma attempts_app (t1 t2 : list Obs) :
  attempts (t1 ++ t2) = (attempts t1 + attempts t2)%nat.
Proof. unfold attempts. rewrite List.filter_app, length_app. reflexivity. Qed.

Lemma delays_app (t1 t2 : list Obs) :
  delays (t1 ++ t2) = delays t1 ++ delays t2.
Proof. apply omap_app. Qed.

Section Loop.

Variable upstream : nat -> Response.

(** The loop of [fetchMovieFromAPI], one turn at a time. *)
Lemma fetchMovieFromAPI_from_unfold (currentRetry : nat) (s : State) :
  fetchMovieFromAPI_from upstream currentRetry s
  = if (currentRetry <? maxRetries)%nat then
      match fetchMovieFromAPI_turn upstream currentRetry s with
      | Continue s' => fetchMovieFromAPI_from upstream (S currentRetry) s'
      | Return r s' => (inl r, s')
      | Throw e s' => (inr e, s')
      end
    else (inl None, s).
Proof.
  simp fetchMovieFromAPI_from.
  destruct (decide (currentRetry < maxRetries)%nat) as [Hlt|Hge].
  - rewrite (proj2 (Nat.ltb_lt _ _) Hlt).
    cbn [fetchMovieFromAPI_from_unfold_clause_1].
    destruct (fetchMovieFromAPI_turn upstream currentRetry s); reflexivity.
  - rewrite (proj2 (Nat.ltb_nlt _ _) Hge). reflexivity.
Qed.

Lemma legacy_fetchMovieFromAPI_from_unfold (currentRetry : nat) (s : State) :
  LegacyApp.fetchMovieFromAPI_from upstream currentRetry s
  = if (currentRetry <? maxRetries)%nat then
      match LegacyApp.fetchMovieFromAPI_turn upstream currentRetry s with
      | Continue s' =>
          LegacyApp.fetchMovieFromAPI_from upstream (S currentRetry) s'
      | Return r s' => (inl r, s')
      | Throw e s' => (inr e, s')
      end
    else (inl None, s).
Proof.
  simp fetchMovieFromAPI_from.
  destruct (decide (currentRetry < maxRetries)%nat) as [Hlt|Hge].
  - rewrite (proj2 (Nat.ltb_lt _ _) Hlt).
    cbn [LegacyApp.fetchMovieFromAPI_from_unfold_clause_1].
    destruct (LegacyApp.fetchMovieFromAPI_turn upstream currentRetry s);
      reflexivity.
  - rewrite (proj2 (Nat.ltb_nlt _ _) Hge). reflexivity.
Qed.

(** ** An upstream that always answers with the transient condition *)

Hypothesis always_transient :
  forall n, exists data, upstream n = Json data /\ transient data = true.

Lemma turn_transient (currentRetry : nat) (s : State) :
  fetchMovieFromAPI_turn upstream currentRetry s
  = let s2 :=
      log "[DEBUG] API returned error in response body:" (fetch upstream s).2 in
    if (maxRetries <=? S currentRetry)%nat then
      Return None
        (log "Exhausted retries for status code 34 error. Moving on silently." s2)
    else
      Continue
        (sleep (1000 * Z.of_nat (S currentRetry)) (log "Silently retrying" s2)).
Proof.
  unfold fetchMovieFromAPI_turn, fetch.
  destruct (always_transient (served s)) as [d [-> Ht]].
  rewrite Ht. reflexivity.
Qed.

Lemma fetchMovieFromAPI_transient (s : State) :
  fetchMovieFromAPI upstream s = (inl None, went_on 3 gave_up s).
Proof.
  unfold fetchMovieFromAPI.
  do 3 (rewrite fetchMovieFromAPI_from_unfold, turn_transient;
        cbn -[fetchMovieFromAPI_from]).
  unfold went_on, gave_up, log, sleep, observe. cbn.
  rewrite <- !app_assoc. reflexivity.
Qed.

Lemma legacy_turn_transient (currentRetry : nat) (s : State) :
  exists data,
    LegacyApp.fetchMovieFromAPI_turn upstream currentRetry s
    = let s2 :=
        log "[DEBUG] API returned error in response body" (fetch upstream s).2 in
      if (maxRetries <=? S currentRetry)%nat then
        fetchMovieFromAPI_catch (S currentRetry)
          (LegacyApp.returned_error data) s2
      else Continue (sleep (1000 * Z.of_nat (S currentRetry)) s2).
Proof.
  unfold LegacyApp.fetchMovieFromAPI_turn, fetch.
  destruct (always_transient (served s)) as [d [-> Ht]].
  exists d. rewrite Ht. reflexivity.
Qed.

Lemma legacy_fetchMovieFromAPI_transient (s : State) :
  exists err,
    LegacyApp.fetchMovieFromAPI upstream s
    = (inr err, went_on 3 LegacyApp.gave_up s).
Proof.
  unfold LegacyApp.fetchMovieFromAPI.
  rewrite legacy_fetchMovieFromAPI_from_unfold.
  destruct (legacy_turn_transient 0 s) as [d0 ->].
  cbn -[LegacyApp.fetchMovieFromAPI_from].
  rewrite legacy_fetchMovieFromAPI_from_unfold.
  match goal with
  | |- context [LegacyApp.fetchMovieFromAPI_turn upstream 1 ?st] =>
      destruct (legacy_turn_transient 1 st) as [d1 ->]
  end.
  cbn -[LegacyApp.fetchMovieFromAPI_from].
  rewrite legacy_fetchMovieFromAPI_from_unfold.
  match goal with
  | |- context [LegacyApp.fetchMovieFromAPI_turn upstream 2 ?st] =>
      destruct (legacy_turn_transient 2 st) as [d2 ->]
  end.
  cbn -[LegacyApp.fetchMovieFromAPI_from].
  exists (LegacyApp.returned_error d2).
  unfold went_on, LegacyApp.gave_up, log, sleep, observe. cbn.
  rewrite <- !app_assoc. reflexivity.
Qed.

Lemma fetchNextMovie_transient (s : State) :
  let s' := fetchNextMovie upstream s in
  trace s'
  = trace s ++ gave_up
      ++ [Log "Received null from fetchMovieFromAPI, trying again silently";
          Sleep 1000]
      ++ gave_up ++ [Log "Failed to fetch movie data after silent retry"] /\
  error s' = error s /\
  snackbar s' = snackbar s /\
  loading s' = false /\
  movieData s' = Some (default emptyMovie (movieData s)) /\
  nextMovieData s' = nextMovieData s.
Proof.
  cbn zeta. unfold fetchNextMovie, fetchNextMovie_rest.
  rewrite fetchMovieFromAPI_transient, fetchMovieFromAPI_transient.
  destruct (movieData s) as [m|] eqn:Hm; cbn; rewrite ?Hm;
    rewrite <- ?app_assoc; repeat split; reflexivity.
Qed.

Lemma legacy_fetchNextMovie_transient (s : State) :
  let s' := LegacyApp.fetchNextMovie upstream s in
  trace s' = trace s ++ LegacyApp.gave_up ++ [Log "Error fetching next movie:"] /\
  error s' = Some "Failed to load next movie. Please try again later."%string /\
  snackbar s'
  = mkSnackbar true "Failed to load next movie. Please try again later." /\
  loading s' = false /\
  movieData s' = movieData s.
Proof.
  cbn zeta. unfold LegacyApp.fetchNextMovie.
  destruct (legacy_fetchMovieFromAPI_transient (setLoading true s)) as [e ->].
  cbn. rewrite <- ?app_assoc. repeat split; reflexivity.
Qed.

End Loop.

(** ** [submitRating] *)

Lemma submitRating_advances (v : Rating) (s : State) (x a : MovieData)
    (u : User) :
  movieData s = Some x -> id x <> 0 -> user s = Some u ->
  nextMovieData s = Some a ->
  let s' := submitRating v s in
  movieData s' = Some a /\
  nextMovieData s' = None /\
  tasks s'
  = tasks s ++ [TPreload]
      ++ [TWrite (mkPayload (user_id u) (id x) (selectionToRating v))] /\
  error s' = error s /\
  snackbar s' = snackbar s.
Proof.
  intros Hx Hid Hu Ha. cbn zeta. unfold submitRating.
  rewrite Hx, Hu, Ha. destruct (Z.eqb_spec (id x) 0) as [E|_]; [contradiction|].
  cbn. rewrite <- app_assoc. repeat split; reflexivity.
Qed.

Lemma finish_write (upstream : nat -> Response) (s : State) (i : nat)
    (payload : Payload) (w : Written) :
  tasks s !! i = Some (TWrite payload) ->
  let s' := finish upstream i w s in
  movieData s' = movieData s /\
  nextMovieData s' = nextMovieData s /\
  error s' = error s /\
  loading s' = loading s /\
  snackbar s'
  = (if written w then snackbar s
     else mkSnackbar true
            "Failed to submit rating, but we moved to the next movie.").
Proof.
  intros Hi. cbn zeta. unfold finish. rewrite Hi.
  destruct w; cbn; repeat split; reflexivity.
Qed.

(** The guards of [submitRating]: without an id or without a user nothing
    but the snackbar changes. *)
Lemma submitRating_guarded (v : Rating) (s : State) (x : MovieData) :
  movieData s = Some x ->
  id x = 0 \/ user s = None ->
  let s' := submitRating v s in
  movieData s' = Some x /\
  nextMovieData s' = nextMovieData s /\
  tasks s' = tasks s /\
  open (snackbar s') = true.
Proof.
  intros Hx Hg. cbn zeta. unfold submitRating. rewrite Hx.
  destruct (Z.eqb_spec (id x) 0) as [E|E].
  - cbn. rewrite Hx. repeat split; reflexivity.
  - destruct Hg as [Hg|Hg]; [contradiction|]. rewrite Hg. cbn. rewrite Hx.
    repeat split; reflexivity.
Qed.

End RatingPageFacts.

(** * The properties the specification states *)

Module Spec.

Import Scenario.

(** C1, as amended.  In [MovieExplorer.tsx] the ref [isReplenishing] guards
    [replenishQueue]: in every reachable state at most one fetch of
    [replenishQueue] is outstanding, and while one is outstanding a further
    call of [replenishQueue] changes nothing, so it issues no request. *)
Theorem replenish_single_flight (es : list Explorer.Event) :
  let s := Explorer.run es Explorer.initial in
  (Explorer.outstanding Explorer.is_replenish s <= 1)%nat /\
  (Explorer.PReplenish ∈ Explorer.pending s -> Explorer.replenishQueue s = s).
Proof.
  cbn zeta. split.
  - apply ExplorerFacts.replenish_outstanding_le_1.
  - intros Hin. apply ExplorerFacts.replenishQueue_guarded.
    apply ExplorerFacts.replenish_pending_guarded, Hin.
Qed.

Lemma replenish_single_flight_witness :
  let s :=
    Explorer.run
      [Explorer.Mount; Explorer.Settle 0 (Resolved (BodyMovies [A]));
       Explorer.QueueEffect] Explorer.initial in
  Explorer.PReplenish ∈ Explorer.pending s /\ Explorer.replenishQueue s = s.
Proof.
  cbn zeta. split.
  - vm_compute. apply list_elem_of_singleton. reflexivity.
  - apply (replenish_single_flight
             [Explorer.Mount; Explorer.Settle 0 (Resolved (BodyMovies [A]));
              Explorer.QueueEffect]).
    vm_compute. apply list_elem_of_singleton. reflexivity.
Defined.

(** C1 as stated fails on the earlier explorer, which has no guard: with a
    replenishment outstanding, a second [replenishQueue] sends three more
    requests, and six replenishment fetches are outstanding at once. *)
Lemma replenish_unguarded_v1 :
  let s := ExplorerV1.replenishQueue loaded_v1 in
  (0 < ExplorerV1.outstanding_replenish s)%nat /\
  ExplorerV1.requests (ExplorerV1.replenishQueue s)
  = ExplorerV1.requests s ++ [GetOne; GetOne; GetOne] /\
  ExplorerV1.outstanding_replenish (ExplorerV1.replenishQueue s) = 6%nat /\
  ~ (ExplorerV1.outstanding_replenish (ExplorerV1.replenishQueue s) <= 1)%nat.
Proof. vm_compute. repeat split; try reflexivity; lia. Qed.

(** C2, as amended.  With a current movie and a filled queue,
    [handleRating] of [MovieExplorer.tsx] makes the head of the queue the
    current movie and removes it from the queue in the handler itself; the
    POST of the rating is the last request issued and its promise is still
    outstanding when the handler returns.  [submitRating] of the rating
    page does the same with its one preloaded movie when the movie on
    display has an id other than 0 and a user is logged in: the preloaded
    movie is on display and the write is started last, not yet settled.
    When the id is 0 or nobody is logged in it returns at its guards: the
    movie stays, the preloaded movie stays, nothing is started and the
    snackbar opens. *)
Theorem rate_advances_immediately :
  (forall (v : Rating) (s : Explorer.State) (x a : Movie) (rest : list Movie),
      Explorer.currentMovie s = Some x ->
      Explorer.movieQueue s = a :: rest ->
      let s' := Explorer.handleRating v s in
      Explorer.currentMovie s' = Some a /\
      Explorer.movieQueue s' = rest /\
      Explorer.pending s' = Explorer.pending s ++ [Explorer.PRating] /\
      Explorer.requests s'
      = Explorer.requests s ++ [Post (id x) (Explorer.numericRating v)]) /\
  (forall (v : Rating) (s : RatingPage.State) (x a : RatingPage.MovieData)
          (u : RatingPage.User),
      RatingPage.movieData s = Some x ->
      RatingPage.nextMovieData s = Some a ->
      RatingPage.id x <> 0 ->
      RatingPage.user s = Some u ->
      let s' := RatingPage.submitRating v s in
      RatingPage.movieData s' = Some a /\
      RatingPage.nextMovieData s' = None /\
      RatingPage.tasks s'
      = RatingPage.tasks s
          ++ [RatingPage.TPreload;
              RatingPage.TWrite
                (RatingPage.mkPayload (RatingPage.user_id u) (RatingPage.id x)
                   (RatingPage.selectionToRating v))]) /\
  (forall (v : Rating) (s : RatingPage.State) (x : RatingPage.MovieData),
      RatingPage.movieData s = Some x ->
      RatingPage.id x = 0 \/ RatingPage.user s = None ->
      let s' := RatingPage.submitRating v s in
      RatingPage.movieData s' = Some x /\
      RatingPage.nextMovieData s' = RatingPage.nextMovieData s /\
      RatingPage.tasks s' = RatingPage.tasks s /\
      RatingPage.open (RatingPage.snackbar s') = true).
Proof.
  split; [|split].
  - intros v s x a rest Hc Hq.
    destruct (ExplorerFacts.handleRating_advances v s x a rest Hc Hq)
      as (H1 & H2 & H3 & H4 & _).
    cbn zeta. auto.
  - intros v s x a u Hx Ha Hid Hu.
    destruct (RatingPageFacts.submitRating_advances v s x a u Hx Hid Hu Ha)
      as (H1 & H2 & H3 & _).
    cbn zeta. auto.
  - intros v s x Hx Hg. exact (RatingPageFacts.submitRating_guarded v s x Hx Hg).
Qed.

Lemma rate_advances_immediately_witness :
  (let s' := Explorer.handleRating yes (loaded [A; B; C]) in
   Explorer.currentMovie s' = Some B /\
   Explorer.movieQueue s' = [C] /\
   Explorer.pending s' = [Explorer.PRating] /\
   Explorer.requests s' = [Get 10 None; Post 1 5]) /\
  (let s' := RatingPage.submitRating yes rating_page in
   RatingPage.movieData s' = Some (RatingPage.mkMovieData 2 "" "" None [] "") /\
   RatingPage.nextMovieData s' = None /\
   RatingPage.tasks s'
   = [RatingPage.TPreload; RatingPage.TWrite (RatingPage.mkPayload 7 1 3)]).
Proof.
  destruct rate_advances_immediately as (HE & HP & _). split.
  - apply (HE yes (loaded [A; B; C]) A B [C]); reflexivity.
  - apply (HP yes rating_page
             (RatingPage.mkMovieData 1 "" "" None [] "")
             (RatingPage.mkMovieData 2 "" "" None [] "")
             (RatingPage.mkUser 7)); [reflexivity|reflexivity|discriminate|reflexivity].
Defined.

(** C2 as stated fails on the rating page: with a movie on display and a
    movie preloaded but nobody logged in, [submitRating] does not advance.
    The movie on display and the preloaded movie stay, no write is started,
    and the snackbar asks to log in. *)
Lemma rate_refused_without_user :
  let s := logged_out in
  let s' := RatingPage.submitRating yes s in
  RatingPage.movieData s = Some (RatingPage.mkMovieData 1 "" "" None [] "") /\
  RatingPage.nextMovieData s
  = Some (RatingPage.mkMovieData 2 "" "" None [] "") /\
  RatingPage.movieData s' = Some (RatingPage.mkMovieData 1 "" "" None [] "") /\
  RatingPage.movieData s' <> RatingPage.nextMovieData s /\
  RatingPage.nextMovieData s'
  = Some (RatingPage.mkMovieData 2 "" "" None [] "") /\
  RatingPage.tasks s' = [] /\
  RatingPage.snackbar s'
  = RatingPage.mkSnackbar true "Please log in to rate movies".
Proof. vm_compute. repeat split; try reflexivity. discriminate. Qed.

(** C3, as amended.  When [replenishQueue] is called by the queue effect
    only (its one call site, which fires below [MIN_QUEUE_SIZE]) and the
    source answers a request with at most [FETCH_SIZE] movies, the length of
    the queue stays between 0 and [2 * FETCH_SIZE - 1] over every sequence
    of operations from the initial state. *)
Theorem queue_length_bounded (es : list Explorer.Event) :
  forallb Explorer.by_effect es = true ->
  forallb Explorer.within_fetch_size es = true ->
  0 <= Z.of_nat (length (Explorer.movieQueue (Explorer.run es Explorer.initial)))
    <= 2 * Explorer.FETCH_SIZE - 1.
Proof.
  intros He Hsz. split; [lia|].
  apply (ExplorerFacts.queue_inv_run es He Hsz).
Qed.

Lemma queue_length_bounded_witness :
  0 <= Z.of_nat
         (length (Explorer.movieQueue
                    (Explorer.run long_session Explorer.initial)))
    <= 2 * Explorer.FETCH_SIZE - 1.
Proof. apply (queue_length_bounded long_session); reflexivity. Defined.

(** C3 as stated fails: the target, [FETCH_SIZE], does not bound the queue.
    After the first batch of ten and five ratings the queue holds four
    movies, the effect replenishes, and the ten movies of the answer are
    appended: fourteen. *)
Lemma queue_exceeds_fetch_size :
  forallb Explorer.by_effect long_session = true /\
  forallb Explorer.within_fetch_size long_session = true /\
  length (Explorer.movieQueue (Explorer.run long_session Explorer.initial))
  = 14%nat /\
  ~ (Z.of_nat
       (length (Explorer.movieQueue
                  (Explorer.run long_session Explorer.initial)))
     <= Explorer.FETCH_SIZE).
Proof. vm_compute. repeat split; try reflexivity. intros H. apply H. reflexivity. Qed.

(** C4, as amended.  Against an upstream that always answers with the
    transient condition, one call of [fetchMovieFromAPI] makes exactly
    three requests with the pauses 1000 and 2000 between them and gives up
    with [null].  The foreground fetch of the rating page, [fetchNextMovie],
    then pauses 1000 and calls it once more: six requests, and neither the
    error state nor the snackbar changes; the movie on display stays, and
    when there was none the empty movie is put on display.  In [App], where
    the third answer throws, [fetchNextMovie] sets the error state after
    three requests. *)
Theorem retry_bound (upstream : nat -> RatingPage.Response)
    (s : RatingPage.State) :
  (forall n, exists data,
      upstream n = RatingPage.Json data /\ RatingPage.transient data = true) ->
  let one := RatingPage.fetchMovieFromAPI upstream s in
  let page := RatingPage.fetchNextMovie upstream s in
  let app := LegacyApp.fetchNextMovie upstream s in
  (one.1 = inl None /\
   RatingPage.attempts (RatingPage.trace one.2)
   = (RatingPage.attempts (RatingPage.trace s) + 3)%nat /\
   RatingPage.delays (RatingPage.trace one.2)
   = RatingPage.delays (RatingPage.trace s) ++ [1000; 2000] /\
   RatingPage.strictly_increasing [1000; 2000] = true /\
   RatingPage.error one.2 = RatingPage.error s) /\
  (RatingPage.attempts (RatingPage.trace page)
   = (RatingPage.attempts (RatingPage.trace s) + 6)%nat /\
   RatingPage.delays (RatingPage.trace page)
   = RatingPage.delays (RatingPage.trace s) ++ [1000; 2000; 1000; 1000; 2000] /\
   RatingPage.error page = RatingPage.error s /\
   RatingPage.snackbar page = RatingPage.snackbar s /\
   RatingPage.loading page = false /\
   RatingPage.movieData page
   = Some (default RatingPage.emptyMovie (RatingPage.movieData s))) /\
  (RatingPage.attempts (RatingPage.trace app)
   = (RatingPage.attempts (RatingPage.trace s) + 3)%nat /\
   RatingPage.delays (RatingPage.trace app)
   = RatingPage.delays (RatingPage.trace s) ++ [1000; 2000] /\
   RatingPage.error app
   = Some "Failed to load next movie. Please try again later."%string /\
   RatingPage.open (RatingPage.snackbar app) = true).
Proof.
  intros Hup. cbn zeta. split; [|split].
  - rewrite (RatingPageFacts.fetchMovieFromAPI_transient upstream Hup s).
    cbn [fst snd RatingPage.went_on RatingPage.trace RatingPage.error].
    rewrite RatingPageFacts.attempts_app, RatingPageFacts.delays_app.
    repeat split; reflexivity.
  - destruct (RatingPageFacts.fetchNextMovie_transient upstream Hup s)
      as (Ht & He & Hs & Hl & Hm & _).
    cbn zeta in Ht. rewrite Ht, He, Hs, Hl, Hm.
    rewrite RatingPageFacts.attempts_app, RatingPageFacts.delays_app.
    repeat split; reflexivity.
  - destruct (RatingPageFacts.legacy_fetchNextMovie_transient upstream Hup s)
      as (Ht & He & Hs & _).
    cbn zeta in Ht. rewrite Ht, He, Hs.
    rewrite RatingPageFacts.attempts_app, RatingPageFacts.delays_app.
    repeat split; reflexivity.
Qed.

Lemma retry_bound_witness :
  (RatingPage.fetchMovieFromAPI RatingPage.always_34
     (RatingPage.initial None)).1 = inl None /\
  RatingPage.attempts
    (RatingPage.trace
       (RatingPage.fetchNextMovie RatingPage.always_34
          (RatingPage.initial None))) = 6%nat /\
  RatingPage.movieData
    (RatingPage.fetchNextMovie RatingPage.always_34 (RatingPage.initial None))
  = Some RatingPage.emptyMovie /\
  RatingPage.error
    (LegacyApp.fetchNextMovie RatingPage.always_34 (RatingPage.initial None))
  = Some "Failed to load next movie. Please try again later."%string.
Proof.
  assert (Hup : forall n, exists data,
             RatingPage.always_34 n = RatingPage.Json data /\
             RatingPage.transient data = true)
    by (intros n; exists RatingPage.status_34; split; reflexivity).
  destruct (retry_bound RatingPage.always_34 (RatingPage.initial None) Hup)
    as ((H1 & _) & (H2 & _ & _ & _ & _ & H4) & (_ & _ & H3 & _)).
  repeat split; assumption.
Defined.

(** C4 as stated fails on the rating page: with status code 34 on every
    request the foreground fetch makes six requests, not three, takes the
    pauses 1000, 2000, 1000, 1000, 2000, which do not increase throughout,
    and ends with no error state and a closed snackbar, the empty movie on
    display. *)
Lemma foreground_fetch_retries_silently :
  let s :=
    RatingPage.fetchNextMovie RatingPage.always_34 (RatingPage.initial None) in
  RatingPage.attempts (RatingPage.trace s) = 6%nat /\
  RatingPage.delays (RatingPage.trace s) = [1000; 2000; 1000; 1000; 2000] /\
  RatingPage.strictly_increasing (RatingPage.delays (RatingPage.trace s))
  = false /\
  RatingPage.error s = None /\
  RatingPage.open (RatingPage.snackbar s) = false /\
  RatingPage.movieData s = Some RatingPage.emptyMovie.
Proof. vm_compute. repeat split; reflexivity. Qed.

(** C5, as amended.  After [rate(v)] the current movie and the queue are
    the same whether the write of the rating fails or succeeds: the head of
    the queue is current and the tail is the queue, and the error state is
    the one from before.  In [MovieExplorer.tsx] a failed write adds one
    line to the console and nothing else; on the rating page a failed write
    also opens the snackbar with an error message, and a write fails there
    when [fetch] rejects, when the response is not ok, and when the
    response is ok but its body cannot be read as JSON. *)
Theorem write_failure_isolated :
  (forall (v : Rating) (s : Explorer.State) (x a : Movie) (rest : list Movie)
          (body : Body),
      Explorer.currentMovie s = Some x ->
      Explorer.movieQueue s = a :: rest ->
      let s1 := Explorer.handleRating v s in
      let w := length (Explorer.pending s) in
      let ok := Explorer.settle w (Resolved body) s1 in
      let ko := Explorer.settle w Rejected s1 in
      (Explorer.currentMovie ko = Some a /\ Explorer.movieQueue ko = rest) /\
      (Explorer.currentMovie ok = Some a /\ Explorer.movieQueue ok = rest) /\
      (Explorer.error ko = Explorer.error s /\
       Explorer.error ok = Explorer.error s) /\
      Explorer.loadingMovie ko = Explorer.loadingMovie s /\
      Explorer.console ok = Explorer.console s /\
      Explorer.console ko
      = Explorer.console s ++ ["Failed to save rating:"%string]) /\
  (forall (upstream : nat -> RatingPage.Response) (v : Rating)
          (s : RatingPage.State) (x a : RatingPage.MovieData)
          (u : RatingPage.User) (failure : RatingPage.Written),
      RatingPage.movieData s = Some x ->
      RatingPage.id x <> 0 ->
      RatingPage.user s = Some u ->
      RatingPage.nextMovieData s = Some a ->
      failure <> RatingPage.WriteRead ->
      let s1 := RatingPage.submitRating v s in
      let w := S (length (RatingPage.tasks s)) in
      let ok := RatingPage.finish upstream w RatingPage.WriteRead s1 in
      let ko := RatingPage.finish upstream w failure s1 in
      (RatingPage.movieData ko = Some a /\ RatingPage.nextMovieData ko = None) /\
      (RatingPage.movieData ok = Some a /\ RatingPage.nextMovieData ok = None) /\
      (RatingPage.error ko = RatingPage.error s /\
       RatingPage.error ok = RatingPage.error s) /\
      RatingPage.snackbar ok = RatingPage.snackbar s /\
      RatingPage.snackbar ko
      = RatingPage.mkSnackbar true
          "Failed to submit rating, but we moved to the next movie.").
Proof.
  split.
  - intros v s x a rest body Hc Hq. cbn zeta.
    destruct (ExplorerFacts.handleRating_advances v s x a rest Hc Hq)
      as (H1 & H2 & H3 & _ & H5 & H6 & H7). cbn zeta in *.
    assert (Hw : Explorer.pending (Explorer.handleRating v s)
                 !! length (Explorer.pending s) = Some Explorer.PRating)
      by (rewrite H3; apply list_lookup_middle; reflexivity).
    destruct (ExplorerFacts.settle_rating _ _ (Resolved body) Hw)
      as (O1 & O2 & _ & O4 & _ & O6).
    destruct (ExplorerFacts.settle_rating _ _ Rejected Hw)
      as (K1 & K2 & _ & K4 & K5 & K6).
    cbn zeta in *. rewrite app_nil_r in O6.
    repeat split; congruence.
  - intros upstream v s x a u failure Hx Hid Hu Ha Hf. cbn zeta.
    assert (Hko : RatingPage.written failure = false)
      by (destruct failure; [reflexivity..|contradiction]).
    destruct (RatingPageFacts.submitRating_advances v s x a u Hx Hid Hu Ha)
      as (H1 & H2 & H3 & H4 & H5). cbn zeta in *.
    assert (Hw : RatingPage.tasks (RatingPage.submitRating v s)
                 !! S (length (RatingPage.tasks s))
                 = Some (RatingPage.TWrite
                           (RatingPage.mkPayload (RatingPage.user_id u)
                              (RatingPage.id x)
                              (RatingPage.selectionToRating v)))).
    { rewrite H3, app_assoc. apply list_lookup_middle.
      rewrite length_app. cbn. lia. }
    destruct (RatingPageFacts.finish_write upstream _ _ _ RatingPage.WriteRead Hw)
      as (O1 & O2 & O3 & _ & O5).
    destruct (RatingPageFacts.finish_write upstream _ _ _ failure Hw)
      as (K1 & K2 & K3 & _ & K5).
    cbn zeta in *. rewrite Hko in K5. cbn [RatingPage.written] in O5.
    repeat split; congruence.
Qed.

Lemma write_failure_isolated_witness :
  let s1 := Explorer.handleRating yes (loaded [A; B; C]) in
  Explorer.currentMovie (Explorer.settle 0 Rejected s1) = Some B /\
  Explorer.movieQueue (Explorer.settle 0 Rejected s1) = [C] /\
  RatingPage.movieData
    (RatingPage.finish RatingPage.always_34 1 RatingPage.WriteUnreadable
       (RatingPage.submitRating yes rating_page))
  = Some (RatingPage.mkMovieData 2 "" "" None [] "") /\
  RatingPage.snackbar
    (RatingPage.finish RatingPage.always_34 1 RatingPage.WriteUnreadable
       (RatingPage.submitRating yes rating_page))
  = RatingPage.mkSnackbar true
      "Failed to submit rating, but we moved to the next movie.".
Proof.
  destruct write_failure_isolated as [HE HR].
  destruct (HE yes (loaded [A; B; C]) A B [C] BodyOther eq_refl eq_refl)
    as ((H1 & H2) & _).
  destruct (HR RatingPage.always_34 yes rating_page
              (RatingPage.mkMovieData 1 "" "" None [] "")
              (RatingPage.mkMovieData 2 "" "" None [] "")
              (RatingPage.mkUser 7) RatingPage.WriteUnreadable
              eq_refl ltac:(discriminate) eq_refl eq_refl ltac:(discriminate))
    as ((H3 & _) & _ & _ & _ & H4).
  repeat split; assumption.
Defined.

(** C5 as stated fails on the rating page: a failed write of the rating
    shows the user an error in the snackbar, where a successful one leaves
    the snackbar closed.  So does a write that the server answered with an
    ok response without a JSON body. *)
Lemma write_failure_opens_snackbar :
  let s1 := RatingPage.submitRating yes rating_page in
  RatingPage.tasks s1 !! 1%nat
  = Some (RatingPage.TWrite (RatingPage.mkPayload 7 1 3)) /\
  RatingPage.open
    (RatingPage.snackbar
       (RatingPage.finish RatingPage.always_34 1 RatingPage.WriteRead s1))
  = false /\
  RatingPage.snackbar
    (RatingPage.finish RatingPage.always_34 1 (RatingPage.WriteNotOk 500) s1)
  = RatingPage.mkSnackbar true
      "Failed to submit rating, but we moved to the next movie." /\
  RatingPage.snackbar
    (RatingPage.finish RatingPage.always_34 1 RatingPage.WriteRejected s1)
  = RatingPage.mkSnackbar true
      "Failed to submit rating, but we moved to the next movie." /\
  RatingPage.snackbar
    (RatingPage.finish RatingPage.always_34 1 RatingPage.WriteUnreadable s1)
  = RatingPage.mkSnackbar true
      "Failed to submit rating, but we moved to the next movie.".
Proof. vm_compute. repeat split; reflexivity. Qed.

(** C6.  Once a fetch has brought movies, their identifiers are in
    [seenMovieIds], and whatever happens next, the request that a later
    [replenishQueue] sends carries an [ignore] list with all of them. *)
Theorem dedup_propagation (s : Explorer.State) (i : nat)
    (p : Explorer.Pending) (movies : list Movie) (es : list Explorer.Event) :
  Explorer.pending s !! i = Some p ->
  p <> Explorer.PRating ->
  let s1 := Explorer.settle i (Resolved (BodyMovies movies)) s in
  let s2 := Explorer.run es s1 in
  (forall m, m ∈ movies -> id m ∈ Explorer.seenMovieIds s1) /\
  (Explorer.isReplenishing s2 = false ->
   Explorer.requests (Explorer.replenishQueue s2)
   = Explorer.requests s2
       ++ [Get Explorer.FETCH_SIZE
             (Explorer.ignoreParam (Explorer.seenMovieIds s2))] /\
   forall m, m ∈ movies ->
     exists ignore,
       Explorer.ignoreParam (Explorer.seenMovieIds s2) = Some ignore /\
       id m ∈ ignore).
Proof.
  intros Hi Hp. cbn zeta.
  assert (Hseen : forall m, m ∈ movies ->
            id m ∈ Explorer.seenMovieIds
                     (Explorer.settle i (Resolved (BodyMovies movies)) s)).
  { intros m Hm.
    change (Explorer.settle i (Resolved (BodyMovies movies)) s)
      with (Explorer.step (Explorer.Settle i (Resolved (BodyMovies movies))) s).
    rewrite ExplorerFacts.seen_step. cbn [Explorer.seen_delta]. rewrite Hi.
    apply elem_of_app. right.
    destruct p; try contradiction;
      apply list_elem_of_In, in_map, list_elem_of_In, Hm. }
  split; [exact Hseen|]. intros Hg. split.
  - unfold Explorer.replenishQueue. rewrite Hg.
    destruct (_ <? 2); reflexivity.
  - intros m Hm.
    pose proof (elem_of_prefix _ _ _ (Hseen m Hm)
                  (ExplorerFacts.seen_run_prefix es _)) as Hin.
    destruct (Explorer.seenMovieIds (Explorer.run es _)) as [|z zs] eqn:E.
    + apply not_elem_of_nil in Hin. contradiction.
    + exists (z :: zs). split; [reflexivity | exact Hin].
Qed.

Lemma dedup_propagation_witness :
  let s1 :=
    Explorer.settle 0 (Resolved (BodyMovies [A; B; C]))
      (Explorer.initialize Explorer.initial) in
  let s2 := Explorer.run [Explorer.Rate yes] s1 in
  (forall m, m ∈ [A; B; C] -> id m ∈ Explorer.seenMovieIds s1) /\
  Explorer.requests (Explorer.replenishQueue s2)
  = Explorer.requests s2 ++ [Get 10 (Some [1; 2; 3])].
Proof.
  destruct (dedup_propagation (Explorer.initialize Explorer.initial) 0
              Explorer.PInitialize [A; B; C] [Explorer.Rate yes]
              eq_refl ltac:(discriminate)) as [H1 H2].
  split; [exact H1|]. exact (proj1 (H2 eq_refl)).
Defined.

(** C7, as amended.  Whatever the state is when the fetch of [initialize]
    settles: when it brings two or more movies, the first one is current
    and the others, in order, are the queue, in place of what the queue
    held; when it brings one movie, that one is current and the queue is
    left as it is; when it fails or brings nothing, the error state is set
    and current movie and queue are left as they are.  When nothing else
    has run since the mount, the queue is then exactly the remaining movies
    and, on failure, current movie and queue are empty.  So for the source
    returning [A, B, C, D] the current movie is [A] and the queue is
    [B, C, D].  The same holds of the earlier explorer over the movies that
    its [QUEUE_SIZE + 1] fetches bring. *)
Theorem initialize_postcondition :
  (forall (s : Explorer.State) (i : nat) (r : Reply),
      Explorer.pending s !! i = Some Explorer.PInitialize ->
      let s' := Explorer.settle i r s in
      Explorer.loadingMovie s' = false /\
      match Explorer.fetched r with
      | first :: rest =>
          Explorer.currentMovie s' = Some (Explorer.normalizeMovie first) /\
          Explorer.movieQueue s'
          = (match rest with
             | [] => Explorer.movieQueue s
             | _ :: _ => map Explorer.normalizeMovie rest
             end) /\
          Explorer.error s' = Explorer.error s
      | [] =>
          Explorer.currentMovie s' = Explorer.currentMovie s /\
          Explorer.movieQueue s' = Explorer.movieQueue s /\
          Explorer.error s' = Some "Failed to fetch movies"%string
      end) /\
  (forall r : Reply,
      let s := Explorer.settle 0 r (Explorer.initialize Explorer.initial) in
      Explorer.loadingMovie s = false /\
      match Explorer.fetched r with
      | first :: rest =>
          Explorer.currentMovie s = Some (Explorer.normalizeMovie first) /\
          Explorer.movieQueue s = map Explorer.normalizeMovie rest /\
          Explorer.error s = None
      | [] =>
          Explorer.currentMovie s = None /\
          Explorer.movieQueue s = [] /\
          Explorer.error s = Some "Failed to fetch movies"%string
      end) /\
  (forall (s : ExplorerV1.State) (i n : nat) (rs : list ExplorerV1.Reply1),
      ExplorerV1.pending s !! i = Some (ExplorerV1.PInitialize n) ->
      length rs = n ->
      let s' := ExplorerV1.settle i rs s in
      ExplorerV1.loadingMovie s' = false /\
      match ExplorerV1.validMovies rs with
      | first :: rest =>
          ExplorerV1.currentMovie s' = Some first /\
          ExplorerV1.movieQueue s'
          = (match rest with
             | [] => ExplorerV1.movieQueue s
             | _ :: _ => rest
             end) /\
          ExplorerV1.error s' = ExplorerV1.error s
      | [] =>
          ExplorerV1.currentMovie s' = ExplorerV1.currentMovie s /\
          ExplorerV1.movieQueue s' = ExplorerV1.movieQueue s /\
          ExplorerV1.error s' = Some "Failed to fetch movies"%string
      end) /\
  (forall rs : list ExplorerV1.Reply1,
      length rs = (ExplorerV1.QUEUE_SIZE + 1)%nat ->
      let s :=
        ExplorerV1.settle 0 rs (ExplorerV1.initialize ExplorerV1.initial) in
      ExplorerV1.loadingMovie s = false /\
      match ExplorerV1.validMovies rs with
      | first :: rest =>
          ExplorerV1.currentMovie s = Some first /\
          ExplorerV1.movieQueue s = rest /\
          ExplorerV1.error s = None
      | [] =>
          ExplorerV1.currentMovie s = None /\
          ExplorerV1.movieQueue s = [] /\
          ExplorerV1.error s = Some "Failed to fetch movies"%string
      end).
Proof.
  split; [|split; [|split]].
  - intros s i r Hi. cbn zeta. unfold Explorer.settle. rewrite Hi.
    cbn [Explorer.resume].
    destruct (ExplorerFacts.initialize_resume_post r
                (Explorer.setPending (delete i) s)) as (H1 & _ & H3).
    split; [exact H1 | exact H3].
  - exact ExplorerFacts.initialize_settled.
  - intros s i n rs Hi Hn. cbn zeta. unfold ExplorerV1.settle. rewrite Hi.
    cbn [ExplorerV1.arity]. rewrite Hn, Nat.eqb_refl. cbn [ExplorerV1.resume].
    exact (ExplorerV1Facts.v1_initialize_resume_post rs
             (ExplorerV1.setPending (delete i) s)).
  - exact ExplorerV1Facts.v1_initialize_settled.
Qed.

Lemma initialize_postcondition_witness :
  (let s :=
     ExplorerV1.settle 0
       [ExplorerV1.Movie1 A; ExplorerV1.Rejected1; ExplorerV1.Movie1 B;
        ExplorerV1.Null1]
       (ExplorerV1.initialize ExplorerV1.initial) in
   ExplorerV1.currentMovie s = Some A /\ ExplorerV1.movieQueue s = [B]) /\
  (let s :=
     ExplorerV1.settle 0
       [ExplorerV1.Movie1 A; ExplorerV1.Null1; ExplorerV1.Null1;
        ExplorerV1.Null1] refilled_v1 in
   ExplorerV1.currentMovie s = Some A /\ ExplorerV1.movieQueue s = [B; C; D]) /\
  (let s := Explorer.settle 0 (Resolved (BodyMovies [A])) skipped_ahead in
   Explorer.currentMovie s = Some A /\
   Explorer.movieQueue s = [movie_with_id 101; movie_with_id 102]).
Proof.
  destruct initialize_postcondition as (HE & _ & HV & HV0).
  split; [|split].
  - destruct (HV0 [ExplorerV1.Movie1 A; ExplorerV1.Rejected1;
                   ExplorerV1.Movie1 B; ExplorerV1.Null1] eq_refl)
      as (_ & H1 & H2 & _).
    split; assumption.
  - destruct (HV refilled_v1 0%nat 4%nat
                [ExplorerV1.Movie1 A; ExplorerV1.Null1; ExplorerV1.Null1;
                 ExplorerV1.Null1] eq_refl eq_refl) as (_ & H1 & H2 & _).
    split; assumption.
  - destruct (HE skipped_ahead 0%nat (Resolved (BodyMovies [A])) eq_refl)
      as (_ & H1 & H2 & _).
    split; assumption.
Defined.

(** C7 as stated fails in its example.  With the target of three,
    [QUEUE_SIZE], the earlier explorer sends four requests, and when they
    bring [A, B, C, D] the queue is [B, C, D], not [B, C]; the explorer that
    fetches in batches does the same with an answer of four movies. *)
Lemma initialize_keeps_all_remaining :
  let v1 :=
    ExplorerV1.settle 0
      [ExplorerV1.Movie1 A; ExplorerV1.Movie1 B; ExplorerV1.Movie1 C;
       ExplorerV1.Movie1 D]
      (ExplorerV1.initialize ExplorerV1.initial) in
  let s :=
    Explorer.settle 0 (Resolved (BodyMovies [A; B; C; D]))
      (Explorer.initialize Explorer.initial) in
  ExplorerV1.QUEUE_SIZE = 3%nat /\
  ExplorerV1.requests (ExplorerV1.initialize ExplorerV1.initial)
  = [GetOne; GetOne; GetOne; GetOne] /\
  ExplorerV1.currentMovie v1 = Some A /\
  ExplorerV1.movieQueue v1 = [B; C; D] /\
  ExplorerV1.movieQueue v1 <> [B; C] /\
  Explorer.currentMovie s = Some A /\
  Explorer.movieQueue s = [B; C; D] /\
  Explorer.movieQueue s <> [B; C].
Proof. vm_compute. repeat split; try reflexivity; discriminate. Qed.




(** C9, as amended.  [seenMovieIds] is a list that every successful fetch
    appends its identifiers to.  No identifier appears in it twice as long
    as the source never answers with an identifier that is already in the
    list, nor with one identifier twice in an answer. *)
Theorem seen_ids_distinct (es : list Explorer.Event) :
  Explorer.never_repeats es Explorer.initial ->
  NoDup (Explorer.seenMovieIds (Explorer.run es Explorer.initial)).
Proof.
  intros H. apply ExplorerFacts.seen_no_dup_run; [constructor | exact H].
Qed.

Lemma seen_ids_distinct_witness :
  NoDup
    (Explorer.seenMovieIds
       (Explorer.run
          [Explorer.Mount; Explorer.Settle 0 (Resolved (BodyMovies [A; B]))]
          Explorer.initial)).
Proof.
  apply (seen_ids_distinct
           [Explorer.Mount; Explorer.Settle 0 (Resolved (BodyMovies [A; B]))]).
  cbn. repeat split.
  - apply NoDup_cons. split; [|apply NoDup_cons; split; [|constructor]].
    + intros H. apply list_elem_of_singleton in H. discriminate.
    + apply not_elem_of_nil.
  - intros x _. apply not_elem_of_nil.
Defined.

(** C9 as stated fails: adding to [seenMovieIds] is not idempotent.  When
    the source returns movie 1 in the first batch and again in the next one,
    the identifier 1 is in the list twice. *)
Lemma seen_ids_repeat :
  let s :=
    Explorer.run
      [Explorer.Mount; Explorer.Settle 0 (Resolved (BodyMovies [A]));
       Explorer.QueueEffect; Explorer.Settle 0 (Resolved (BodyMovies [A]))]
      Explorer.initial in
  Explorer.seenMovieIds s = [1; 1] /\ ~ NoDup (Explorer.seenMovieIds s).
Proof.
  cbn zeta. assert (E : Explorer.seenMovieIds
    (Explorer.run
      [Explorer.Mount; Explorer.Settle 0 (Resolved (BodyMovies [A]));
       Explorer.QueueEffect; Explorer.Settle 0 (Resolved (BodyMovies [A]))]
      Explorer.initial) = [1; 1]) by reflexivity.
  rewrite E. split; [reflexivity|]. intros H.
  apply NoDup_cons in H as [H _]. apply H, list_elem_of_singleton. reflexivity.
Qed.

(** C10, as amended.  [replenishQueue] leaves the current movie, the error
    state, the queue and [seenMovieIds] as they are when it is called, and
    when its fetch settles the current movie and the error state are still
    the same, the queue is the old queue followed by the fetched movies, and
    [seenMovieIds] is the old list followed by their identifiers; a failed
    fetch brings no movies, so these do not change.  Besides, in
    [MovieExplorer.tsx] an unguarded call sets the loading state when the
    queue holds fewer than two movies, and the settled fetch clears the
    loading state and the ref.  The earlier explorer touches nothing but
    the queue. *)
Theorem replenish_frame :
  (forall s : Explorer.State,
      let s1 := Explorer.replenishQueue s in
      Explorer.currentMovie s1 = Explorer.currentMovie s /\
      Explorer.error s1 = Explorer.error s /\
      Explorer.movieQueue s1 = Explorer.movieQueue s /\
      Explorer.seenMovieIds s1 = Explorer.seenMovieIds s /\
      Explorer.loadingMovie s1
      = (if Explorer.isReplenishing s then Explorer.loadingMovie s
         else (Z.of_nat (length (Explorer.movieQueue s)) <? 2)
              || Explorer.loadingMovie s)) /\
  (forall (s : Explorer.State) (i : nat) (r : Reply),
      Explorer.pending s !! i = Some Explorer.PReplenish ->
      let s2 := Explorer.settle i r s in
      Explorer.currentMovie s2 = Explorer.currentMovie s /\
      Explorer.error s2 = Explorer.error s /\
      Explorer.movieQueue s2
      = Explorer.movieQueue s
          ++ map Explorer.normalizeMovie (Explorer.fetched r) /\
      Explorer.seenMovieIds s2
      = Explorer.seenMovieIds s ++ map id (Explorer.fetched r) /\
      Explorer.loadingMovie s2 = false /\
      Explorer.isReplenishing s2 = false) /\
  (forall s : ExplorerV1.State,
      let s1 := ExplorerV1.replenishQueue s in
      ExplorerV1.currentMovie s1 = ExplorerV1.currentMovie s /\
      ExplorerV1.error s1 = ExplorerV1.error s /\
      ExplorerV1.movieQueue s1 = ExplorerV1.movieQueue s /\
      ExplorerV1.loadingMovie s1 = ExplorerV1.loadingMovie s) /\
  (forall (s : ExplorerV1.State) (i n : nat) (rs : list ExplorerV1.Reply1),
      ExplorerV1.pending s !! i = Some (ExplorerV1.PReplenish n) ->
      length rs = n ->
      let s2 := ExplorerV1.settle i rs s in
      ExplorerV1.currentMovie s2 = ExplorerV1.currentMovie s /\
      ExplorerV1.error s2 = ExplorerV1.error s /\
      ExplorerV1.movieQueue s2
      = ExplorerV1.movieQueue s ++ ExplorerV1.validMovies rs /\
      ExplorerV1.loadingMovie s2 = ExplorerV1.loadingMovie s).
Proof.
  split; [|split; [|split]].
  - intros s. cbn zeta.
    destruct (ExplorerFacts.replenishQueue_frame s) as (H1 & H2 & H3 & H4).
    destruct (ExplorerFacts.replenishQueue_loading s) as (_ & H5).
    repeat split; assumption.
  - intros s i r Hi. cbn zeta. unfold Explorer.settle. rewrite Hi.
    destruct (ExplorerFacts.replenishQueue_resume_frame r
                (Explorer.setPending (delete i) s)) as (H1 & H2 & H3 & H4).
    destruct (ExplorerFacts.replenishQueue_resume_loading r
                (Explorer.setPending (delete i) s)) as (_ & H5 & H6).
    cbn [Explorer.resume]. repeat split; assumption.
  - intros s. cbn zeta.
    destruct (ExplorerV1Facts.v1_replenishQueue_frame s) as (H1 & H2 & H3).
    destruct (ExplorerV1Facts.v1_replenishQueue_quiet s) as (H4 & _).
    repeat split; assumption.
  - intros s i n rs Hi Hn. cbn zeta. unfold ExplorerV1.settle.
    rewrite Hi. cbn [ExplorerV1.arity]. rewrite Hn, Nat.eqb_refl.
    destruct (ExplorerV1Facts.v1_replenishQueue_resume_frame rs
                (ExplorerV1.setPending (delete i) s)) as (H1 & H2 & H3).
    destruct (ExplorerV1Facts.v1_replenishQueue_resume_quiet rs
                (ExplorerV1.setPending (delete i) s)) as (H4 & _).
    cbn [ExplorerV1.resume]. repeat split; assumption.
Qed.

Lemma replenish_frame_witness :
  let s := Explorer.queueEffect (loaded [A; B]) in
  let ok := Explorer.settle 0 (Resolved (BodyMovies [C; D])) s in
  let ko := Explorer.settle 0 Rejected s in
  (Explorer.currentMovie ok = Some A /\ Explorer.movieQueue ok = [B; C; D] /\
   Explorer.seenMovieIds ok = [1; 2; 3; 4]) /\
  (Explorer.currentMovie ko = Some A /\ Explorer.movieQueue ko = [B] /\
   Explorer.seenMovieIds ko = [1; 2]).
Proof.
  destruct replenish_frame as (_ & H & _).
  destruct (H (Explorer.queueEffect (loaded [A; B])) 0%nat
              (Resolved (BodyMovies [C; D])) eq_refl) as (H1 & _ & H2 & H3 & _).
  destruct (H (Explorer.queueEffect (loaded [A; B])) 0%nat Rejected eq_refl)
    as (K1 & _ & K2 & K3 & _).
  repeat split; assumption.
Defined.

(** C10 as stated fails in [MovieExplorer.tsx]: appending to the queue and
    to [seenMovieIds] are not the only effects of [replenishQueue] on the
    state.  Called with one movie on display and an empty queue, it turns
    the loading state on. *)
Lemma replenish_sets_loading :
  let s := loaded [A] in
  Explorer.movieQueue s = [] /\
  Explorer.loadingMovie s = false /\
  Explorer.loadingMovie (Explorer.replenishQueue s) = true /\
  Explorer.loadingMovie (Explorer.replenishQueue s) <> Explorer.loadingMovie s.
Proof. vm_compute. repeat split; try reflexivity. discriminate. Qed.

End Spec.

(** * Further properties of [Explorer] *)

Module ExplorerInvariants.

Import Explorer ExplorerView.

(** ** Every movie held was delivered by a fetch *)

Lemma known_frame (s s' : State) :
  movieQueue s' = movieQueue s ->
  currentMovie s' = currentMovie s ->
  seenMovieIds s' = seenMovieIds s ->
  known s -> known s'.
Proof. unfold known. intros -> -> ->. auto. Qed.

Lemma normalized_ids_seen (seen : list Z) (movies : list Movie) (m : Movie) :
  m ∈ map normalizeMovie movies -> id m ∈ seen ++ map id movies.
Proof.
  intros Hm. apply list_elem_of_In, in_map_iff in Hm as (m0 & <- & Hin).
  apply elem_of_app. right. change (id (normalizeMovie m0)) with (id m0).
  apply list_elem_of_In, (in_map id), Hin.
Qed.

Lemma known_grows (s s' : State) (movies : list Movie) :
  currentMovie s' = currentMovie s ->
  movieQueue s' = movieQueue s ->
  seenMovieIds s' = seenMovieIds s ++ map id movies ->
  known s -> known s'.
Proof.
  unfold known. intros -> -> -> [Hq Hc]. split.
  - intros m Hm. apply elem_of_app. left. auto.
  - intros m Hm. apply elem_of_app. left. auto.
Qed.

Lemma known_moveToNextMovie (s : State) :
  known s -> known (moveToNextMovie s).
Proof.
  intros [Hq Hc]. unfold moveToNextMovie.
  destruct (movieQueue s) as [|a rest] eqn:E.
  - destruct (negb (isReplenishing s)); [|split; rewrite ?E; auto].
    split; cbn; rewrite ?E; auto.
  - split; cbn; rewrite ?E, ?drop_0.
    + intros m Hm. apply Hq. by apply list_elem_of_further.
    + intros m [= <-]. apply Hq, list_elem_of_here.
Qed.

Lemma known_settle (i : nat) (r : Reply) (s : State) :
  known s -> known (settle i r s).
Proof.
  intros Hk. unfold settle. destruct (pending s !! i) as [p|]; [|exact Hk].
  assert (Hk0 : known (setPending (delete i) s))
    by (revert Hk; apply known_frame; reflexivity).
  set (s0 := setPending (delete i) s) in *. clearbody s0.
  destruct (ExplorerFacts.fetchMovies_resume_movies r s0) as [Hm Hs].
  destruct (ExplorerFacts.fetchMovies_resume_frame r s0)
    as (Hc & Hq & _).
  assert (Hk1 : known (fetchMovies_resume r s0).2)
    by (revert Hk0; apply (known_grows _ _ (fetched r)); assumption).
  destruct p; cbn [resume].
  - unfold initialize_resume.
    destruct (fetchMovies_resume r s0) as [ms s1]. cbn in *. subst ms.
    destruct Hk1 as [Hq1 Hc1].
    destruct (map normalizeMovie (fetched r)) as [|m [|m' rest]] eqn:E;
      split; cbn; auto.
    + intros x [= <-]. rewrite Hs. apply normalized_ids_seen. rewrite E.
      apply list_elem_of_here.
    + intros x Hx. rewrite Hs. apply normalized_ids_seen. rewrite E.
      by apply list_elem_of_further.
    + intros x [= <-]. rewrite Hs. apply normalized_ids_seen. rewrite E.
      apply list_elem_of_here.
  - unfold replenishQueue_resume.
    destruct (fetchMovies_resume r s0) as [ms s1]. cbn in *. subst ms.
    destruct Hk1 as [Hq1 Hc1].
    destruct (map normalizeMovie (fetched r)) as [|m rest] eqn:E;
      split; cbn; auto.
    intros x Hx. apply elem_of_app in Hx as [Hx|Hx]; [auto|].
    rewrite Hs. apply normalized_ids_seen. rewrite E. exact Hx.
  - unfold moveToNextMovie_resume.
    destruct (fetchMovies_resume r s0) as [ms s1]. cbn in *. subst ms.
    destruct Hk1 as [Hq1 Hc1].
    destruct (map normalizeMovie (fetched r)) as [|m rest] eqn:E;
      split; cbn; auto.
    intros x [= <-]. rewrite Hs. apply normalized_ids_seen. rewrite E.
    apply list_elem_of_here.
  - unfold handleRating_resume. destruct r; exact Hk0.
Qed.

Lemma known_step (e : Event) (s : State) : known s -> known (step e s).
Proof.
  intros Hk. destruct e; cbn [step].
  - unfold initialize. destruct (negb _); [exact Hk|].
    revert Hk. apply known_frame; reflexivity.
  - unfold queueEffect. destruct (_ && _); [|exact Hk].
    destruct (ExplorerFacts.replenishQueue_frame s) as (Hc & _ & Hq & Hs).
    revert Hk. apply known_frame; assumption.
  - destruct (ExplorerFacts.replenishQueue_frame s) as (Hc & _ & Hq & Hs).
    revert Hk. apply known_frame; assumption.
  - apply known_moveToNextMovie, Hk.
  - unfold handleRating. destruct (currentMovie s); [|exact Hk].
    apply known_moveToNextMovie in Hk. revert Hk.
    apply known_frame; reflexivity.
  - apply known_settle, Hk.
Qed.

Lemma known_initial : known initial.
Proof.
  split; cbn.
  - intros m Hm. by apply not_elem_of_nil in Hm.
  - discriminate.
Qed.

(** ** The ratings that were sent *)

Lemma posted_frame (s s' : State) :
  requests s' = requests s -> posted s' = posted s.
Proof. unfold posted. intros ->. reflexivity. Qed.

Lemma posted_get (s s' : State) (count : Z) (ig : option (list Z)) :
  requests s' = requests s ++ [Get count ig] -> posted s' = posted s.
Proof. unfold posted. intros ->. rewrite omap_app. cbn. apply app_nil_r. Qed.

Lemma requests_settle (i : nat) (r : Reply) (s : State) :
  requests (settle i r s) = requests s.
Proof.
  unfold settle. destruct (pending s !! i) as [p|]; [|reflexivity].
  set (s0 := setPending (delete i) s).
  change (requests s) with (requests s0).
  destruct (ExplorerFacts.fetchMovies_resume_frame r s0)
    as (_ & _ & _ & _ & _ & _ & _ & Hr).
  destruct p; cbn [resume].
  - unfold initialize_resume.
    destruct (fetchMovies_resume r s0) as [[|m [|m' ms]] s1]; exact Hr.
  - unfold replenishQueue_resume.
    destruct (fetchMovies_resume r s0) as [[|m ms] s1]; exact Hr.
  - unfold moveToNextMovie_resume.
    destruct (fetchMovies_resume r s0) as [[|m ms] s1]; exact Hr.
  - unfold handleRating_resume. destruct r; reflexivity.
Qed.

(** What one event adds to the list of requests. *)
Lemma requests_replenishQueue (s : State) :
  requests (replenishQueue s) = requests s \/
  requests (replenishQueue s)
  = requests s ++ [Get FETCH_SIZE (ignoreParam (seenMovieIds s))].
Proof.
  unfold replenishQueue. destruct (isReplenishing s); [by left|].
  right. destruct (_ <? 2); reflexivity.
Qed.

Lemma requests_moveToNextMovie (s : State) :
  requests (moveToNextMovie s) = requests s \/
  requests (moveToNextMovie s)
  = requests s ++ [Get 1 (ignoreParam (seenMovieIds s))].
Proof.
  unfold moveToNextMovie. destruct (movieQueue s); [|by left].
  destruct (negb _); [by right | by left].
Qed.

Lemma posted_step (e : Event) (s : State) :
  posted (step e s) = posted s \/
  exists (m : Movie) (v : Rating),
    currentMovie s = Some m /\
    posted (step e s) = posted s ++ [id m] /\
    posted_ratings (step e s) = posted_ratings s ++ [numericRating v].
Proof.
  destruct e; cbn [step].
  - left. unfold initialize. destruct (negb _); [reflexivity|].
    eapply posted_get. reflexivity.
  - left. unfold queueEffect. destruct (_ && _); [|reflexivity].
    destruct (requests_replenishQueue s) as [H|H];
      [by apply posted_frame | by eapply posted_get].
  - left. destruct (requests_replenishQueue s) as [H|H];
      [by apply posted_frame | by eapply posted_get].
  - left. destruct (requests_moveToNextMovie s) as [H|H];
      [by apply posted_frame | by eapply posted_get].
  - unfold handleRating. destruct (currentMovie s) as [m|] eqn:E; [|by left].
    right. exists m, rating. split; [reflexivity|].
    unfold posted, posted_ratings. cbn. rewrite !omap_app. cbn.
    destruct (requests_moveToNextMovie s) as [H|H]; rewrite H;
      rewrite ?omap_app; cbn; rewrite ?app_nil_r; split; reflexivity.
  - left. apply posted_frame, requests_settle.
Qed.

Lemma posted_ratings_step (e : Event) (s : State) :
  posted (step e s) = posted s -> posted_ratings (step e s) = posted_ratings s.
Proof.
  intros Hp. destruct e; cbn [step] in *; unfold posted_ratings.
  - unfold initialize. destruct (negb _); [reflexivity|].
    cbn. rewrite omap_app. cbn. apply app_nil_r.
  - unfold queueEffect. destruct (_ && _); [|reflexivity].
    destruct (requests_replenishQueue s) as [H|H]; rewrite H;
      rewrite ?omap_app; cbn; rewrite ?app_nil_r; reflexivity.
  - destruct (requests_replenishQueue s) as [H|H]; rewrite H;
      rewrite ?omap_app; cbn; rewrite ?app_nil_r; reflexivity.
  - destruct (requests_moveToNextMovie s) as [H|H]; rewrite H;
      rewrite ?omap_app; cbn; rewrite ?app_nil_r; reflexivity.
  - unfold handleRating. destruct (currentMovie s) as [m|] eqn:E;
      [|reflexivity].
    exfalso. revert Hp. unfold handleRating, posted. rewrite E. cbn.
    rewrite omap_app. cbn.
    destruct (requests_moveToNextMovie s) as [H|H]; rewrite H;
      rewrite ?omap_app; cbn; rewrite ?app_nil_r; intros H';
      apply (f_equal length) in H'; rewrite length_app in H'; cbn in H'; lia.
  - rewrite requests_settle. reflexivity.
Qed.

(** ** The loading state *)

Lemma fetches_snoc (s s' : State) (p : Pending) :
  pending s' = pending s ++ [p] ->
  outstanding is_fetch s'
  = (outstanding is_fetch s + if is_fetch p then 1 else 0)%nat.
Proof.
  unfold outstanding. intros ->. rewrite ExplorerFacts.filter_length_app.
  cbn. destruct (is_fetch p); reflexivity.
Qed.

Lemma loading_replenishQueue (s : State) :
  (loadingMovie s = true -> (0 < outstanding is_fetch s)%nat) ->
  loadingMovie (replenishQueue s) = true ->
  (0 < outstanding is_fetch (replenishQueue s))%nat.
Proof.
  unfold replenishQueue. destruct (isReplenishing s); [auto|].
  intros _ _.
  destruct (Z.of_nat (length (movieQueue s)) <? 2);
    erewrite fetches_snoc by reflexivity; cbn; lia.
Qed.

Lemma loading_moveToNextMovie (s : State) :
  (loadingMovie s = true -> (0 < outstanding is_fetch s)%nat) ->
  loadingMovie (moveToNextMovie s) = true ->
  (0 < outstanding is_fetch (moveToNextMovie s))%nat.
Proof.
  unfold moveToNextMovie. destruct (movieQueue s); [|auto].
  destruct (negb (isReplenishing s)); [|auto].
  intros _ _. erewrite fetches_snoc by reflexivity. cbn. lia.
Qed.

Lemma loading_step (e : Event) (s : State) :
  (loadingMovie s = true -> (0 < outstanding is_fetch s)%nat) ->
  loadingMovie (step e s) = true ->
  (0 < outstanding is_fetch (step e s))%nat.
Proof.
  intros H. destruct e; cbn [step].
  - unfold initialize. destruct (negb _); [exact H|].
    intros _. erewrite fetches_snoc by reflexivity. cbn. lia.
  - unfold queueEffect. destruct (_ && _); [|exact H].
    apply loading_replenishQueue, H.
  - apply loading_replenishQueue, H.
  - apply loading_moveToNextMovie, H.
  - unfold handleRating. destruct (currentMovie s); [|exact H].
    intros Hl. erewrite fetches_snoc by reflexivity. cbn.
    rewrite Nat.add_0_r. apply loading_moveToNextMovie; [exact H|exact Hl].
  - unfold settle. destruct (pending s !! i) as [p|] eqn:Hi; [|exact H].
    set (s0 := setPending (delete i) s).
    destruct (ExplorerFacts.fetchMovies_resume_frame r s0)
      as (_ & _ & Hl & _).
    destruct p; cbn [resume].
    + unfold initialize_resume.
      destruct (fetchMovies_resume r s0) as [[|m [|m' ms]] s1];
        cbn; discriminate.
    + unfold replenishQueue_resume.
      destruct (fetchMovies_resume r s0) as [[|m ms] s1]; cbn; discriminate.
    + unfold moveToNextMovie_resume.
      destruct (fetchMovies_resume r s0) as [[|m ms] s1]; cbn; discriminate.
    + pose proof (ExplorerFacts.filter_length_delete is_fetch _ _ _ Hi) as Hd.
      cbn in Hd. rewrite Nat.add_0_r in Hd.
      unfold handleRating_resume. intros Hl'.
      assert (Hs : loadingMovie s = true) by (destruct r; exact Hl').
      specialize (H Hs). unfold outstanding in *.
      destruct r; cbn; lia.
Qed.

Lemma mounted_step (e : Event) (s : State) :
  isInitialMount s = false -> isInitialMount (step e s) = false.
Proof.
  intros Hm. destruct e; cbn [step].
  - unfold initialize. rewrite Hm. exact Hm.
  - unfold queueEffect, replenishQueue.
    destruct (_ && _); [|exact Hm]. destruct (isReplenishing s); [exact Hm|].
    destruct (_ <? 2); exact Hm.
  - unfold replenishQueue. destruct (isReplenishing s); [exact Hm|].
    destruct (_ <? 2); exact Hm.
  - unfold moveToNextMovie. destruct (movieQueue s); [|exact Hm].
    destruct (negb _); exact Hm.
  - unfold handleRating, moveToNextMovie. destruct (currentMovie s); [|exact Hm].
    destruct (movieQueue s); [|exact Hm]. destruct (negb _); exact Hm.
  - unfold settle. destruct (pending s !! i) as [p|]; [|exact Hm].
    set (s0 := setPending (delete i) s).
    destruct (ExplorerFacts.fetchMovies_resume_frame r s0)
      as (_ & _ & _ & _ & Hi & _).
    destruct p; cbn [resume].
    + unfold initialize_resume.
      destruct (fetchMovies_resume r s0) as [[|m [|m' ms]] s1]; reflexivity.
    + unfold replenishQueue_resume.
      destruct (fetchMovies_resume r s0) as [[|m ms] s1]; cbn in *;
        rewrite Hi; exact Hm.
    + unfold moveToNextMovie_resume.
      destruct (fetchMovies_resume r s0) as [[|m ms] s1]; cbn in *;
        rewrite Hi; exact Hm.
    + unfold handleRating_resume. destruct r; exact Hm.
Qed.

Lemma error_shown_frame (s s' : State) :
  error s' = error s -> error_shown s' = error_shown s.
Proof. unfold error_shown. intros ->. reflexivity. Qed.

Lemma error_shown_step (e : Event) (s : State) :
  isInitialMount s = false ->
  error_shown s = true -> error_shown (step e s) = true.
Proof.
  intros Hm He. destruct e; cbn [step].
  - unfold initialize. rewrite Hm. exact He.
  - unfold queueEffect. destruct (_ && _); [|exact He].
    rewrite <- He. apply error_shown_frame, ExplorerFacts.replenishQueue_frame.
  - rewrite <- He. apply error_shown_frame, ExplorerFacts.replenishQueue_frame.
  - unfold moveToNextMovie. destruct (movieQueue s); [|exact He].
    destruct (negb _); exact He.
  - unfold handleRating, moveToNextMovie. destruct (currentMovie s); [|exact He].
    destruct (movieQueue s); [|exact He]. destruct (negb _); exact He.
  - unfold settle. destruct (pending s !! i) as [p|]; [|exact He].
    set (s0 := setPending (delete i) s).
    destruct (ExplorerFacts.fetchMovies_resume_frame r s0)
      as (_ & _ & _ & Hf & _).
    assert (He1 : error_shown (fetchMovies_resume r s0).2 = true)
      by (rewrite <- He; apply error_shown_frame; exact Hf).
    destruct p; cbn [resume].
    + unfold initialize_resume.
      destruct (fetchMovies_resume r s0) as [[|m [|m' ms]] s1];
        try reflexivity; exact He1.
    + unfold replenishQueue_resume.
      destruct (fetchMovies_resume r s0) as [[|m ms] s1]; exact He1.
    + unfold moveToNextMovie_resume.
      destruct (fetchMovies_resume r s0) as [[|m ms] s1];
        try reflexivity; exact He1.
    + unfold handleRating_resume. destruct r; exact He.
Qed.

(** ** The [ignore] lists *)

Lemma ignored_frame (s s' : State) :
  requests s' = requests s -> ignored s' = ignored s.
Proof. unfold ignored. intros ->. reflexivity. Qed.

Lemma ignored_get (s s' : State) (count : Z) :
  requests s' = requests s ++ [Get count (ignoreParam (seenMovieIds s))] ->
  ignored s' = ignored s \/
  (seenMovieIds s <> [] /\ ignored s' = ignored s ++ [seenMovieIds s]).
Proof.
  unfold ignored. intros ->. rewrite omap_app.
  destruct (seenMovieIds s) as [|z zs]; cbn.
  - left. apply app_nil_r.
  - right. split; [discriminate | reflexivity].
Qed.

Lemma ignored_post (s s' : State) (i v : Z) :
  requests s' = requests s ++ [Post i v] -> ignored s' = ignored s.
Proof. unfold ignored. intros ->. rewrite omap_app. cbn. apply app_nil_r. Qed.

Lemma ignored_step (e : Event) (s : State) :
  ignored (step e s) = ignored s \/
  (seenMovieIds s <> [] /\ ignored (step e s) = ignored s ++ [seenMovieIds s]).
Proof.
  destruct e; cbn [step].
  - unfold initialize. destruct (negb _); [by left|].
    eapply ignored_get. reflexivity.
  - unfold queueEffect. destruct (_ && _); [|by left].
    destruct (requests_replenishQueue s) as [H|H];
      [left; by apply ignored_frame | by eapply ignored_get].
  - destruct (requests_replenishQueue s) as [H|H];
      [left; by apply ignored_frame | by eapply ignored_get].
  - destruct (requests_moveToNextMovie s) as [H|H];
      [left; by apply ignored_frame | by eapply ignored_get].
  - unfold handleRating. destruct (currentMovie s) as [m|]; [|by left].
    match goal with
    | |- context [issue ?q (moveToNextMovie s)] =>
        assert (Hp : ignored (setPending (fun ps => ps ++ [PRating])
                                (issue q (moveToNextMovie s)))
                     = ignored (moveToNextMovie s))
          by (unfold ignored; cbn; rewrite omap_app; cbn; apply app_nil_r)
    end.
    rewrite Hp.
    destruct (requests_moveToNextMovie s) as [H|H];
      [left; by apply ignored_frame | by eapply ignored_get].
  - left. apply ignored_frame, requests_settle.
Qed.

Lemma known_run (es : list Event) (s : State) :
  known s -> known (run es s).
Proof.
  revert s. induction es as [|e es IH]; intros s Hs; [exact Hs|].
  cbn. apply IH, known_step, Hs.
Qed.

(** ** The theorems *)

(** Every movie that the explorer holds, on display or in its queue, was
    delivered by a fetch: its identifier is in [seenMovieIds]. *)
Theorem held_movies_were_fetched (es : list Event) :
  known (run es initial).
Proof. apply known_run. exact known_initial. Qed.

(** Every rating that was sent names a movie from [seenMovieIds] and carries
    1, 3 or 5. *)
Theorem rated_movies_were_fetched (es : list Event) :
  let s := run es initial in
  (forall i, i ∈ posted s -> i ∈ seenMovieIds s) /\
  (forall v, v ∈ posted_ratings s -> v = 1 \/ v = 3 \/ v = 5).
Proof.
  cbn zeta. induction es as [|e es [IH1 IH2]] using rev_ind.
  - split; intros x Hx; by apply not_elem_of_nil in Hx.
  - rewrite ExplorerFacts.run_snoc. set (s := run es initial) in *.
    pose proof (known_run es initial known_initial) as [_ Hc]. fold s in Hc.
    assert (Hseen : forall i, i ∈ seenMovieIds s -> i ∈ seenMovieIds (step e s))
      by (intros i Hi; rewrite ExplorerFacts.seen_step; apply elem_of_app;
          by left).
    destruct (posted_step e s) as [Hp|(m & v & Hm & Hp & Hr)].
    + rewrite Hp, (posted_ratings_step e s Hp). split; auto.
    + rewrite Hp, Hr. split.
      * intros i Hi. apply elem_of_app in Hi as [Hi|Hi]; [auto|].
        apply list_elem_of_singleton in Hi as ->. auto.
      * intros x Hx. apply elem_of_app in Hx as [Hx|Hx]; [auto|].
        apply list_elem_of_singleton in Hx as ->. destruct v; cbn; auto.
Qed.

(** The loading state is on only while a fetch is outstanding: the spinner
    is never left on with nothing to wait for. *)
Theorem loading_means_fetching (es : list Event) :
  loadingMovie (run es initial) = true ->
  (0 < outstanding is_fetch (run es initial))%nat.
Proof.
  induction es as [|e es IH] using rev_ind; [discriminate|].
  rewrite ExplorerFacts.run_snoc. apply loading_step, IH.
Qed.

Lemma loading_means_fetching_witness :
  (0 < outstanding is_fetch (run [Mount] initial))%nat.
Proof. apply (loading_means_fetching [Mount]). reflexivity. Defined.

(** Once the first fetch of [initialize] has settled, an error that is
    shown is never taken back: whatever happens next, the component renders
    the loading screen or the error screen, never a movie. *)
Theorem error_screen_stays (s : State) (es : list Event) :
  isInitialMount s = false ->
  error_shown s = true ->
  render (run es s) = LoadingScreen \/
  exists msg, render (run es s) = ErrorScreen msg.
Proof.
  intros Hm He.
  assert (H : isInitialMount (run es s) = false /\ error_shown (run es s) = true).
  { induction es as [|e es [IH1 IH2]] using rev_ind; [auto|].
    rewrite ExplorerFacts.run_snoc. split.
    - apply mounted_step, IH1.
    - apply error_shown_step; assumption. }
  destruct H as [_ H]. unfold render, error_shown in *.
  destruct (loadingMovie (run es s)); [by left|]. right.
  destruct (error (run es s)) as [msg|]; [|discriminate].
  exists msg. rewrite H. reflexivity.
Qed.

Lemma error_screen_stays_witness :
  exists msg,
    render
      (run [Skip; Settle 0 (Resolved (BodyMovies [Scenario.A]))]
         (run [Mount; Settle 0 Rejected] initial))
    = ErrorScreen msg.
Proof.
  destruct (error_screen_stays (run [Mount; Settle 0 Rejected] initial)
              [Skip; Settle 0 (Resolved (BodyMovies [Scenario.A]))]
              eq_refl eq_refl) as [H|H].
  - discriminate H.
  - exact H.
Defined.

(** [initialize] runs once: after its first fetch has settled, the effect
    that calls it changes nothing, whatever happened in between. *)
Theorem initialize_runs_once (s : State) (es : list Event) :
  isInitialMount s = false ->
  step Mount (run es s) = run es s.
Proof.
  intros Hm.
  assert (H : isInitialMount (run es s) = false).
  { induction es as [|e es IH] using rev_ind; [exact Hm|].
    rewrite ExplorerFacts.run_snoc. apply mounted_step, IH. }
  cbn. unfold initialize. rewrite H. reflexivity.
Qed.

Lemma initialize_runs_once_witness :
  step Mount (run [Rate yes; QueueEffect] (Scenario.loaded [Scenario.A; Scenario.B]))
  = run [Rate yes; QueueEffect] (Scenario.loaded [Scenario.A; Scenario.B]).
Proof.
  apply (initialize_runs_once (Scenario.loaded [Scenario.A; Scenario.B])).
  reflexivity.
Defined.

(** A request never asks the source to ignore anything but what it has
    delivered: every [ignore] list that was sent is a non-empty prefix of
    [seenMovieIds]. *)
Theorem ignore_lists_are_seen_prefixes (es : list Event) (ig : list Z) :
  ig ∈ ignored (run es initial) ->
  ig <> [] /\ ig `prefix_of` seenMovieIds (run es initial).
Proof.
  induction es as [|e es IH] using rev_ind.
  - intros H. by apply not_elem_of_nil in H.
  - rewrite ExplorerFacts.run_snoc. set (s := run es initial) in *.
    assert (Hpre : seenMovieIds s `prefix_of` seenMovieIds (step e s))
      by (rewrite ExplorerFacts.seen_step; by apply prefix_app_r).
    destruct (ignored_step e s) as [->|[Hne ->]]; intros Hin.
    + destruct (IH Hin) as [H1 H2]. split; [exact H1|]. by etrans.
    + apply elem_of_app in Hin as [Hin|Hin].
      * destruct (IH Hin) as [H1 H2]. split; [exact H1|]. by etrans.
      * apply list_elem_of_singleton in Hin as ->. split; assumption.
Qed.

Lemma ignore_lists_are_seen_prefixes_witness :
  [1; 2] `prefix_of`
    seenMovieIds
      (run [Mount; Settle 0 (Resolved (BodyMovies [Scenario.A; Scenario.B]));
            QueueEffect; Settle 0 (Resolved (BodyMovies [Scenario.C]))]
         initial).
Proof.
  refine (proj2 (ignore_lists_are_seen_prefixes
           [Mount; Settle 0 (Resolved (BodyMovies [Scenario.A; Scenario.B]));
            QueueEffect; Settle 0 (Resolved (BodyMovies [Scenario.C]))]
           [1; 2] _)).
  vm_compute. apply list_elem_of_singleton. reflexivity.
Defined.

(** Rating on an empty queue sends the rating and keeps the movie on
    display, so rating again sends a second rating for the same movie. *)
Theorem rate_on_empty_queue_keeps_movie (v w : Rating) (s : State) (x : Movie) :
  currentMovie s = Some x ->
  movieQueue s = [] ->
  let s1 := handleRating v s in
  currentMovie s1 = Some x /\
  movieQueue s1 = [] /\
  posted s1 = posted s ++ [id x] /\
  posted (handleRating w s1) = posted s ++ [id x; id x].
Proof.
  intros Hc Hq. cbn zeta.
  assert (H1 : forall u s0, currentMovie s0 = Some x -> movieQueue s0 = [] ->
            currentMovie (handleRating u s0) = Some x /\
            movieQueue (handleRating u s0) = [] /\
            posted (handleRating u s0) = posted s0 ++ [id x]).
  { intros u s0 Hc0 Hq0. unfold handleRating, moveToNextMovie, posted.
    rewrite Hc0, Hq0.
    destruct (negb (isReplenishing s0)); cbn; rewrite ?omap_app; cbn;
      rewrite ?app_nil_r; auto. }
  destruct (H1 v s Hc Hq) as (A1 & A2 & A3).
  destruct (H1 w _ A1 A2) as (_ & _ & B3).
  rewrite B3, A3, <- app_assoc. auto.
Qed.

Lemma rate_on_empty_queue_keeps_movie_witness :
  posted (handleRating no (handleRating yes (Scenario.loaded [Scenario.A])))
  = [1; 1].
Proof.
  destruct (rate_on_empty_queue_keeps_movie yes no
              (Scenario.loaded [Scenario.A]) Scenario.A eq_refl eq_refl)
    as (_ & _ & _ & H).
  exact H.
Defined.

End ExplorerInvariants.

(** * Properties of what the explorer shows *)

Module ExplorerViewFacts.

Import Explorer ExplorerView.

(** ** Strings *)

Lemma substring_0_length (n : nat) (s : string) :
  String.length (substring 0 n s) = Nat.min n (String.length s).
Proof.
  revert n. induction s as [|c s IH]; intros [|n]; cbn; try reflexivity.
  rewrite IH. reflexivity.
Qed.

Lemma append_length (a b : string) :
  String.length (String.append a b) = (String.length a + String.length b)%nat.
Proof. induction a as [|c a IH]; cbn; [reflexivity | by rewrite IH]. Qed.

Lemma substring_0_idem (n : nat) (s : string) :
  substring 0 n (substring 0 n s) = substring 0 n s.
Proof.
  revert n. induction s as [|c s IH]; intros [|n]; cbn; try reflexivity.
  rewrite IH. reflexivity.
Qed.

Lemma substring_0_append (n : nat) (a b : string) :
  (n <= String.length a)%nat ->
  substring 0 n (String.append a b) = substring 0 n a.
Proof.
  revert n. induction a as [|c a IH]; intros [|n] Hn; cbn in *;
    try reflexivity; try lia.
  - destruct b; reflexivity.
  - rewrite IH by lia. reflexivity.
Qed.

(** ** [getPosterUrl] *)

(** Whatever the poster path is, [getPosterUrl] yields an absolute https
    address, and an address it has produced passes through it unchanged. *)
Theorem getPosterUrl_absolute (path : option string) :
  String.prefix "https://" (getPosterUrl path) = true /\
  getPosterUrl (Some (getPosterUrl path)) = getPosterUrl path.
Proof.
  assert (H : forall u, truthy u = true -> String.prefix "https://" u = true ->
            getPosterUrl (Some u) = u).
  { intros u H1 H2. unfold getPosterUrl. rewrite H1, H2. reflexivity. }
  destruct path as [p|]; unfold getPosterUrl.
  - destruct (truthy p) eqn:Ht; cbn [andb negb].
    + destruct (String.prefix "https://" p) eqn:Hp.
      * split; [exact Hp | by apply H].
      * split; [reflexivity | by apply H].
    + split; reflexivity.
  - split; reflexivity.
Qed.

(** ** The genres *)

(** Normalising a fetched movie keeps its identifier and the labels of its
    genre chips, turns every genre into an object, and is idempotent. *)
Theorem normalizeMovie_keeps_labels (m : Movie) :
  id (normalizeMovie m) = id m /\
  renderGenres (Some (normalizeMovie m)) = renderGenres (Some m) /\
  (forall g, g ∈ genres (normalizeMovie m) ->
     exists gid name, g = GenreObj gid name) /\
  normalizeMovie (normalizeMovie m) = normalizeMovie m.
Proof.
  assert (Hn : forall g, genreName (normalizeGenre g) = genreName g)
    by (intros []; reflexivity).
  assert (Hi : forall g, normalizeGenre (normalizeGenre g) = normalizeGenre g)
    by (intros []; reflexivity).
  split; [reflexivity|]. split; [|split].
  - unfold renderGenres. cbn. destruct (genres m) as [|g gs]; [reflexivity|].
    cbn. f_equal. rewrite Hn. f_equal. rewrite List.map_map.
    apply List.map_ext, Hn.
  - intros g Hg. cbn in Hg.
    apply list_elem_of_In, in_map_iff in Hg as ([gid name|n] & <- & _);
      cbn; eauto.
  - unfold normalizeMovie. cbn. f_equal. rewrite List.map_map.
    apply List.map_ext, Hi.
Qed.

(** ** The overview *)

(** The overview is shown whole when it is expanded or has at most 150
    characters; otherwise its first 150 characters are shown, followed by
    three dots. *)
Theorem truncatedOverview_bounds (expanded : bool) (overview : string) :
  let shown := truncatedOverview expanded overview in
  (expanded = true \/ (String.length overview <= overviewCharLimit)%nat ->
   shown = overview) /\
  (expanded = false ->
   (String.length shown <= overviewCharLimit + 3)%nat /\
   substring 0 overviewCharLimit shown
   = substring 0 overviewCharLimit overview).
Proof.
  cbn zeta. unfold truncatedOverview.
  destruct (Nat.ltb_spec overviewCharLimit (String.length overview)) as [Hl|Hl].
  - split.
    + intros [->|H]; [reflexivity | lia].
    + intros ->. cbn [andb negb]. split.
      * rewrite append_length, substring_0_length.
        change (String.length "...") with 3%nat. lia.
      * rewrite substring_0_append, substring_0_idem; [reflexivity|].
        rewrite substring_0_length. lia.
  - cbn [andb]. split; [reflexivity|]. intros _. split; [lia | reflexivity].
Qed.

Lemma truncatedOverview_bounds_witness :
  truncatedOverview true "A short plot." = "A short plot."%string.
Proof.
  apply (proj1 (truncatedOverview_bounds true "A short plot.")).
  left. reflexivity.
Defined.

End ExplorerViewFacts.

(** * Properties of [Api] and [Auth] *)

Module ApiFacts.

Import Api.

(** The explorer is handed movies by a call exactly when the response is
    ok, is not a 204, and has an array for its body. *)
Theorem reply_movies_iff (answer : option Response) (movies : list Movie) :
  reply answer = Resolved (BodyMovies movies) <->
  exists response,
    answer = Some response /\
    status response <> 204 /\
    ok response = true /\
    body response = Some (JsonMovies movies).
Proof.
  unfold reply, call, handleResponse. split.
  - destruct answer as [[st o b]|]; cbn; [|discriminate].
    destruct (Z.eqb_spec st 204) as [->|Hst]; [discriminate|].
    destruct b as [data|]; [|discriminate].
    destruct o; cbn.
    + destruct data; try discriminate. intros [= ->]. eexists. eauto.
    + destruct data; discriminate.
  - intros ([st o b] & -> & Hst & Ho & Hb). cbn in *. subst.
    destruct (Z.eqb_spec st 204); [contradiction | reflexivity].
Qed.

Lemma reply_movies_iff_witness :
  reply (Some (mkResponse 200 true (Some (JsonMovies [Scenario.A]))))
  = Resolved (BodyMovies [Scenario.A]).
Proof.
  apply (proj2 (reply_movies_iff _ [Scenario.A])).
  eexists. repeat split. discriminate.
Defined.



(** A 204 answer to the first fetch counts as an invalid answer: nothing is
    added to [seenMovieIds], the console gets ["Invalid response format:"],
    and the explorer ends in the error state with no movie. *)
Theorem no_content_fails_initialize (o : bool) (b : option Json) :
  let s :=
    Explorer.settle 0 (reply (Some (mkResponse 204 o b)))
      (Explorer.initialize Explorer.initial) in
  Explorer.error s = Some "Failed to fetch movies"%string /\
  Explorer.currentMovie s = None /\
  Explorer.seenMovieIds s = [] /\
  Explorer.console s = ["Invalid response format:"%string] /\
  ExplorerView.render s = ExplorerView.ErrorScreen "Failed to fetch movies".
Proof. cbn. repeat split; reflexivity. Qed.

(** Every request carries the content type; it carries an [Authorization]
    header exactly when there is a non-empty token, and then that header is
    the token behind ["Bearer "]. *)
Theorem getHeaders_authorization (token : option string) :
  ("Content-Type", "application/json")%string ∈ getHeaders token /\
  forall v, ("Authorization"%string, v) ∈ getHeaders token <->
            exists t, token = Some t /\ t <> ""%string /\
                      v = String.append "Bearer " t.
Proof.
  unfold getHeaders. split; [apply list_elem_of_here|]. intros v.
  assert (Hc : ("Authorization"%string, v)
               <> ("Content-Type"%string, "application/json"%string))
    by discriminate.
  destruct token as [t|].
  - unfold ExplorerView.truthy.
    destruct (String.eqb_spec t "") as [->|Ht]; cbn; split.
    + intros H. apply list_elem_of_singleton in H. contradiction.
    + intros (t & [= <-] & Ht & _). contradiction.
    + intros H. apply elem_of_cons in H as [H|H]; [contradiction|].
      apply list_elem_of_singleton in H as [= ->]. eauto.
    + intros (t' & [= <-] & _ & ->). apply list_elem_of_further, list_elem_of_here.
  - split.
    + intros H. apply list_elem_of_singleton in H. contradiction.
    + intros (t & [=] & _).
Qed.

End ApiFacts.

Module AuthFacts.

Import Auth.

Lemma login_granted_token (held : option string) (stored : string)
    (m : MeAnswer) (s : State) :
  token (login_granted held stored m s).2 = held /\
  storage (login_granted held stored m s).2 = Some stored.
Proof. destruct m as [[u|]| |]; split; reflexivity. Qed.

(** A token in the state is the one in [localStorage]. *)
Lemma token_backed_step (e : Event) (s : State) :
  (forall t, token s = Some t -> storage s = Some t) ->
  forall t, token (step e s) = Some t -> storage (step e s) = Some t.
Proof.
  intros H.
  assert (Hl : forall a m t, token (login a m s).2 = Some t ->
                             storage (login a m s).2 = Some t).
  { intros [a|text| |] m t; cbn [login]; [| |apply H|apply H].
    - destruct (login_granted_token (Some a) a m s) as [-> ->]. auto.
    - destruct (login_granted_token None text m s) as [-> _]. discriminate. }
  destruct e; cbn [step].
  - unfold checkLoggedIn. destruct (token s) as [t0|] eqn:Et; [|cbn; congruence].
    destruct (ExplorerView.truthy t0); [|cbn; rewrite Et; exact H].
    destruct answer as [[u|]| |]; cbn; rewrite ?Et; try exact H; discriminate.
  - apply Hl.
  - unfold register. destruct answer as [st o d|]; [|exact H].
    destruct (st =? 201); [apply Hl|]. destruct (negb o); exact H.
  - discriminate.
Qed.

Lemma token_stored_step (e : Event) (s : State) :
  typed e = true ->
  token s = storage s -> token (step e s) = storage (step e s).
Proof.
  intros Ht H.
  assert (Hl : forall a m, (forall text, a <> TokenFalsy text) ->
                           token (login a m s).2 = storage (login a m s).2).
  { intros [a|text| |] m Ha; cbn [login]; [| |exact H|exact H].
    - destruct (login_granted_token (Some a) a m s) as [-> ->]. reflexivity.
    - destruct (Ha text eq_refl). }
  destruct e; cbn [step].
  - unfold checkLoggedIn. destruct (token s) as [t|] eqn:Et; [|cbn; congruence].
    destruct (ExplorerView.truthy t); [|cbn; congruence].
    destruct answer as [[u|]| |]; cbn; congruence.
  - apply Hl. intros text ->. discriminate.
  - unfold register. destruct answer as [st o d|]; [|exact H].
    destruct (st =? 201) eqn:E; [|destruct (negb o); exact H].
    apply Hl. intros text ->. cbn in Ht. rewrite E in Ht. discriminate.
  - reflexivity.
Qed.

(** After any calls and any answers, a token in the state of the session
    is the token in [localStorage].  The two are the same at every moment
    as long as every ok answer to [POST /token] carries a string; an ok
    answer without one leaves the state without a token and [localStorage]
    with the text of what it carried. *)
Theorem token_matches_storage (stored : option string) (es : list Event) :
  let s := run es (initial stored) in
  (forall t, token s = Some t -> storage s = Some t) /\
  (forallb typed es = true -> token s = storage s) /\
  (forall text meAnswer,
     let s' := step (Login (TokenFalsy text) meAnswer) s in
     token s' = None /\ storage s' = Some text).
Proof.
  cbn zeta. split; [|split].
  - induction es as [|e es IH] using rev_ind; [intros t Ht; exact Ht|].
    unfold run in *. rewrite fold_left_app. cbn. apply token_backed_step, IH.
  - induction es as [|e es IH] using rev_ind; [reflexivity|].
    rewrite forallb_app. cbn [forallb]. rewrite andb_true_r.
    intros [H1 H2]%andb_prop.
    unfold run in *. rewrite fold_left_app. cbn.
    apply token_stored_step; [exact H2 | exact (IH H1)].
  - intros text meAnswer. cbn [step login].
    apply login_granted_token.
Qed.

Lemma token_matches_storage_witness :
  let s :=
    run [Login (TokenOk "abc") MeNotOk; CheckLoggedIn MeFailed;
         Login (TokenOk "xyz") (MeOk (Some (mkUser "a@b.c" None None None)))]
      (initial None) in
  token s = storage s /\ storage s = Some "xyz"%string.
Proof.
  cbn zeta.
  destruct (token_matches_storage None
              [Login (TokenOk "abc") MeNotOk; CheckLoggedIn MeFailed;
               Login (TokenOk "xyz")
                 (MeOk (Some (mkUser "a@b.c" None None None)))])
    as (H1 & H2 & _).
  split; [exact (H2 eq_refl)|]. apply H1. reflexivity.
Defined.

(** [login] reports success exactly when the answer to [POST /token] is ok
    and the server then returns the user; the session then holds that user
    and, when the answer carried a string, that token in its state and in
    [localStorage]; when it carried none, the state holds no token and
    [localStorage] the text of what it carried. *)
Theorem login_success_iff (tokenAnswer : TokenAnswer) (meAnswer : MeAnswer)
    (s : State) :
  success (login tokenAnswer meAnswer s).1 = true <->
  exists u,
    meAnswer = MeOk (Some u) /\
    currentUser (login tokenAnswer meAnswer s).2 = Some u /\
    ((exists t,
        tokenAnswer = TokenOk t /\
        token (login tokenAnswer meAnswer s).2 = Some t /\
        storage (login tokenAnswer meAnswer s).2 = Some t) \/
     (exists text,
        tokenAnswer = TokenFalsy text /\
        token (login tokenAnswer meAnswer s).2 = None /\
        storage (login tokenAnswer meAnswer s).2 = Some text)).
Proof.
  split.
  - destruct tokenAnswer as [t|text| |]; cbn; try discriminate.
    + destruct meAnswer as [[u|]| |]; cbn; try discriminate.
      intros _. exists u. split; [reflexivity|]. split; [reflexivity|].
      left. exists t. repeat split; reflexivity.
    + destruct meAnswer as [[u|]| |]; cbn; try discriminate.
      intros _. exists u. split; [reflexivity|]. split; [reflexivity|].
      right. exists text. repeat split; reflexivity.
  - intros (u & -> & _ & [(t & -> & _)|(text & -> & _)]); reflexivity.
Qed.

Lemma login_success_iff_witness :
  success
    (login (TokenOk "abc") (MeOk (Some (mkUser "a@b.c" None None None)))
       (initial None)).1 = true.
Proof.
  apply (proj2 (login_success_iff _ _ _)).
  eexists. split; [reflexivity|]. split; [reflexivity|].
  left. eexists. repeat split; reflexivity.
Defined.

(** When the server grants a token and the request for the user then
    fails, [login] reports a failure, and yet the new token stays in the
    state and in [localStorage]; the user of the session is who it was.
    The check that the new token triggers logs out when the request for
    the user fails again. *)
Theorem login_keeps_token_without_user (t : string)
    (meAnswer again : MeAnswer) (s : State) :
  (forall u, meAnswer <> MeOk (Some u)) ->
  (forall u, again <> MeOk (Some u)) ->
  let r := login (TokenOk t) meAnswer s in
  r.1 = mkResult false (Some "Invalid email or password"%string) /\
  token r.2 = Some t /\ storage r.2 = Some t /\
  currentUser r.2 = currentUser s /\
  (t <> ""%string ->
   let s' := checkLoggedIn again r.2 in
   token s' = None /\ storage s' = None /\ currentUser s' = None).
Proof.
  intros Hme Hagain. cbn zeta.
  assert (Hl : (login (TokenOk t) meAnswer s).1
               = mkResult false (Some "Invalid email or password"%string) /\
               token (login (TokenOk t) meAnswer s).2 = Some t /\
               storage (login (TokenOk t) meAnswer s).2 = Some t /\
               currentUser (login (TokenOk t) meAnswer s).2 = currentUser s).
  { destruct meAnswer as [[u|]| |]; [destruct (Hme u eq_refl)|..];
      cbn; repeat split; reflexivity. }
  destruct Hl as (H1 & H2 & H3 & H4).
  split; [exact H1|]. split; [exact H2|]. split; [exact H3|].
  split; [exact H4|]. intros Ht. cbn zeta.
  unfold checkLoggedIn. rewrite H2. unfold ExplorerView.truthy.
  destruct (String.eqb_spec t "") as [E|_]; [contradiction|]. cbn [negb].
  destruct again as [[u|]| |]; [destruct (Hagain u eq_refl)|..];
    repeat split; reflexivity.
Qed.

Lemma login_keeps_token_without_user_witness :
  token (login (TokenOk "abc") MeNotOk (initial None)).2 = Some "abc"%string /\
  token (checkLoggedIn MeFailed
           (login (TokenOk "abc") MeNotOk (initial None)).2) = None.
Proof.
  destruct (login_keeps_token_without_user "abc" MeNotOk MeFailed (initial None)
              ltac:(discriminate) ltac:(discriminate))
    as (_ & H1 & _ & _ & H2).
  split; [exact H1|]. apply H2. discriminate.
Defined.

(** Only the status 201 makes [register] log in.  Any other answer leaves
    the session as it is; [register] then reports success exactly when the
    response is ok, and a failure comes with a message that is not empty. *)
Theorem register_logs_in_on_201_only (status : Z) (ok : bool)
    (detail : option string) (tokenAnswer : TokenAnswer) (meAnswer : MeAnswer)
    (s : State) :
  status <> 201 ->
  let r := register (RegisterResponse status ok detail) tokenAnswer meAnswer s in
  r.2 = s /\
  success r.1 = ok /\
  (ok = false -> exists msg, message r.1 = Some msg /\ msg <> ""%string).
Proof.
  intros Hst. cbn zeta. unfold register.
  destruct (Z.eqb_spec status 201) as [E|_]; [contradiction|].
  destruct ok; cbn; repeat split; try discriminate.
  intros _. destruct detail as [d|]; [|eexists; split; [reflexivity|discriminate]].
  unfold ExplorerView.truthy.
  destruct (String.eqb_spec d "") as [->|Hd]; cbn;
    eexists; (split; [reflexivity|]); [discriminate | exact Hd].
Qed.

Lemma register_logs_in_on_201_only_witness :
  (register (RegisterResponse 200 true None) (TokenOk "abc")
     (MeOk (Some (mkUser "a@b.c" None None None))) (initial None)).2
  = initial None.
Proof.
  apply (register_logs_in_on_201_only 200 true None). discriminate.
Defined.

End AuthFacts.

(** * Further properties of the rating page *)

Module RatingPageMoreFacts.

Import RatingPage RatingPageView.

(** ** Traces *)

Lemma went_on_went_on (a b : nat) (os1 os2 : list Obs) (s : State) :
  went_on a os1 (went_on b os2 s) = went_on (a + b) (os2 ++ os1) s.
Proof.
  unfold went_on. cbn. rewrite Nat.add_assoc, app_assoc. reflexivity.
Qed.

Lemma pauses_S (c k : nat) :
  pauses c (S k) = 1000 * Z.of_nat (S c) :: pauses (S c) k.
Proof. reflexivity. Qed.

Section AnyUpstream.

Variable upstream : nat -> Response.

(** ** One turn of the retry loop *)

Lemma turn_shape (c : nat) (s : State) :
  (c < maxRetries)%nat ->
  exists os,
    attempts os = 1%nat /\
    match fetchMovieFromAPI_turn upstream c s with
    | Continue s' =>
        (S c < maxRetries)%nat /\ s' = went_on 1 os s /\
        delays os = [1000 * Z.of_nat (S c)]
    | Return r s' =>
        s' = went_on 1 os s /\ delays os = [] /\
        explains upstream (served s) (S c) (inl r)
    | Throw e s' =>
        s' = went_on 1 os s /\ delays os = [] /\
        explains upstream (served s) (S c) (inr e)
    end.
Proof.
  intros Hc. unfold maxRetries in *.
  unfold fetchMovieFromAPI_turn, fetch, fetchMovieFromAPI_catch, maxRetries.
  destruct (upstream (served s)) as [msg|status|data] eqn:E.
  - destruct (Nat.leb_spec (3 - 1) c) as [H|H].
    + exists [Attempt; Log "Error fetching movie:"].
      split; [reflexivity|]. split; [|split; [reflexivity|]].
      * unfold went_on, log, observe. cbn. by rewrite <- app_assoc.
      * split; [unfold maxRetries; lia|]. left. eauto.
    + exists [Attempt; Log "Error fetching movie:";
              Sleep (1000 * Z.of_nat (S c))].
      split; [reflexivity|]. split; [lia|]. split; [|reflexivity].
      unfold went_on, log, sleep, observe. cbn. by rewrite <- !app_assoc.
  - destruct (Nat.leb_spec (3 - 1) c) as [H|H].
    + exists [Attempt; Log "Error fetching movie:"].
      split; [reflexivity|]. split; [|split; [reflexivity|]].
      * unfold went_on, log, observe. cbn. by rewrite <- app_assoc.
      * split; [unfold maxRetries; lia|]. right. eauto.
    + exists [Attempt; Log "Error fetching movie:";
              Sleep (1000 * Z.of_nat (S c))].
      split; [reflexivity|]. split; [lia|]. split; [|reflexivity].
      unfold went_on, log, sleep, observe. cbn. by rewrite <- !app_assoc.
  - destruct (transient data) eqn:Ht.
    + destruct (Nat.leb_spec 3 (S c)) as [H|H].
      * exists [Attempt; Log "[DEBUG] API returned error in response body:";
                Log "Exhausted retries for status code 34 error. Moving on silently."].
        split; [reflexivity|]. split; [|split; [reflexivity|]].
        -- unfold went_on, log, observe. cbn. by rewrite <- !app_assoc.
        -- split; [unfold maxRetries; lia|]. eauto.
      * exists [Attempt; Log "[DEBUG] API returned error in response body:";
                Log "Silently retrying"; Sleep (1000 * Z.of_nat (S c))].
        split; [reflexivity|]. split; [lia|]. split; [|reflexivity].
        unfold went_on, log, sleep, observe. cbn. by rewrite <- !app_assoc.
    + exists [Attempt; Log "[DEBUG] Processed movie data from API"].
      split; [reflexivity|]. split; [|split; [reflexivity|]].
      * unfold went_on, log, observe. cbn. by rewrite <- !app_assoc.
      * exists data. auto.
Qed.

(** ** The loop *)

Lemma from_shape (n c : nat) (s : State) :
  (c + n = maxRetries)%nat -> (0 < n)%nat ->
  exists k os,
    (1 <= k <= n)%nat /\
    (fetchMovieFromAPI_from upstream c s).2 = went_on k os s /\
    attempts os = k /\
    delays os = pauses c (k - 1) /\
    explains upstream (k - 1 + served s) (c + k)
      (fetchMovieFromAPI_from upstream c s).1.
Proof.
  revert c s. induction n as [|n IH]; intros c s Hcn Hn; [lia|].
  rewrite RatingPageFacts.fetchMovieFromAPI_from_unfold.
  assert (Hc : (c < maxRetries)%nat) by lia.
  rewrite (proj2 (Nat.ltb_lt _ _) Hc).
  destruct (turn_shape c s Hc) as (os & Ha & Ht).
  destruct (fetchMovieFromAPI_turn upstream c s) as [s1|r s1|e s1].
  - destruct Ht as (Hlt & -> & Hd).
    destruct (IH (S c) (went_on 1 os s)) as (k & os' & Hk & Hs & Ha' & Hd' & He);
      [lia | lia |].
    exists (S k), (os ++ os'). split; [lia|]. split; [|split; [|split]].
    + rewrite Hs, went_on_went_on. f_equal. lia.
    + rewrite RatingPageFacts.attempts_app. lia.
    + rewrite RatingPageFacts.delays_app, Hd, Hd'.
      replace (S k - 1)%nat with (S (k - 1)) by lia. reflexivity.
    + replace (S k - 1 + served s)%nat
        with (k - 1 + served (went_on 1 os s))%nat by (cbn; lia).
      replace (c + S k)%nat with (S c + k)%nat by lia. exact He.
  - destruct Ht as (-> & Hd & He). exists 1%nat, os.
    split; [lia|]. cbn [fst snd]. rewrite Nat.add_1_r.
    split; [reflexivity|]. split; [exact Ha|]. split; [exact Hd | exact He].
  - destruct Ht as (-> & Hd & He). exists 1%nat, os.
    split; [lia|]. cbn [fst snd]. rewrite Nat.add_1_r.
    split; [reflexivity|]. split; [exact Ha|]. split; [exact Hd | exact He].
Qed.

(** Against any upstream, one call of [fetchMovieFromAPI] sends at least
    one and at most three requests; between them it pauses 1000 and then
    2000, so the pauses increase; and it touches nothing of the page but
    the count of requests and the trace. *)
Theorem fetchMovieFromAPI_bounded (s : State) :
  let s' := (fetchMovieFromAPI upstream s).2 in
  exists k,
    (1 <= k <= 3)%nat /\
    served s' = (k + served s)%nat /\
    attempts (trace s') = (attempts (trace s) + k)%nat /\
    delays (trace s') = delays (trace s) ++ take (k - 1) [1000; 2000] /\
    strictly_increasing (take (k - 1) [1000; 2000]) = true /\
    (movieData s' = movieData s /\ nextMovieData s' = nextMovieData s /\
     loading s' = loading s /\ error s' = error s /\
     snackbar s' = snackbar s /\ tasks s' = tasks s).
Proof.
  cbn zeta. unfold fetchMovieFromAPI.
  destruct (from_shape 3 0 s eq_refl ltac:(lia))
    as (k & os & Hk & -> & Ha & Hd & _).
  exists k. split; [exact Hk|].
  cbn [went_on served trace movieData nextMovieData loading error snackbar
       tasks snd].
  rewrite RatingPageFacts.attempts_app, RatingPageFacts.delays_app, Ha, Hd.
  assert (Hp : pauses 0 (k - 1) = take (k - 1) [1000; 2000])
    by (destruct k as [|[|[|[|k]]]]; try reflexivity; lia).
  rewrite Hp. repeat split; try reflexivity.
  destruct k as [|[|[|[|k]]]]; try reflexivity; lia.
Qed.

(** A movie that [fetchMovieFromAPI] returns is [processMovieData] of the
    body of its last answer, and that body is not the transient one; it
    returns [null] or throws only on its third request, [null] when the
    third answer is the transient one and the error of the third answer
    otherwise. *)
Theorem fetchMovieFromAPI_result (s : State) :
  let r := fetchMovieFromAPI upstream s in
  exists k,
    (1 <= k <= 3)%nat /\
    served r.2 = (k + served s)%nat /\
    explains upstream (served r.2 - 1) k r.1.
Proof.
  cbn zeta. unfold fetchMovieFromAPI.
  destruct (from_shape 3 0 s eq_refl ltac:(lia))
    as (k & os & Hk & Hs & _ & _ & He).
  exists k. rewrite Hs. cbn. split; [exact Hk|]. split; [reflexivity|].
  replace (k + served s - 1)%nat with (k - 1 + served s)%nat by lia.
  exact He.
Qed.

(** The state after one call, for any upstream. *)
Lemma fetchMovieFromAPI_went_on (s : State) :
  exists k os,
    (1 <= k <= 3)%nat /\ attempts os = k /\
    (fetchMovieFromAPI upstream s).2 = went_on k os s /\
    explains upstream (k - 1 + served s) k (fetchMovieFromAPI upstream s).1.
Proof.
  unfold fetchMovieFromAPI.
  destruct (from_shape 3 0 s eq_refl ltac:(lia))
    as (k & os & Hk & Hs & Ha & _ & He).
  exists k, os. auto.
Qed.

(** A preload never shows: whatever the upstream answers,
    [preloadNextMovie] leaves the movie on display, the error state, the
    snackbar and the loading state as they are and sends at most six
    requests; the preloaded movie is either the one from before or one built
    from a body that is not the transient one. *)
Theorem preload_is_silent (s : State) :
  let s' := preloadNextMovie_rest upstream s in
  movieData s' = movieData s /\
  error s' = error s /\
  snackbar s' = snackbar s /\
  loading s' = loading s /\
  (served s <= served s' <= served s + 6)%nat /\
  (nextMovieData s' = nextMovieData s \/
   exists data,
     transient data = false /\
     nextMovieData s' = Some (processMovieData data)).
Proof.
  cbn zeta. unfold preloadNextMovie_rest.
  set (s0 := log "[DEBUG] Preloading next movie" s).
  destruct (fetchMovieFromAPI_went_on s0) as (k & os & Hk & _ & Hs & He).
  destruct (fetchMovieFromAPI upstream s0) as [[[m|]|e] s1]; cbn in Hs, He;
    subst s1.
  - destruct He as (data & _ & Ht & ->). cbn.
    repeat split; try reflexivity; try lia. right. eauto.
  - set (s2 := sleep 1000 _).
    destruct (fetchMovieFromAPI_went_on s2) as (k' & os' & Hk' & _ & Hs' & He').
    destruct (fetchMovieFromAPI upstream s2) as [[[m|]|e] s3]; cbn in Hs', He';
      subst s3.
    + destruct He' as (data & _ & Ht & ->). cbn.
      repeat split; try reflexivity; try lia. right. eauto.
    + cbn. repeat split; try reflexivity; try lia. by left.
    + cbn. repeat split; try reflexivity; try lia. by left.
  - cbn. repeat split; try reflexivity; try lia. by left.
Qed.

(** Whatever the upstream answers, a foreground fetch ends with the loading
    state off, leaves the preloaded movie alone, and sends between one and
    six requests; and it never ends with neither a movie nor an error on
    display. *)
Theorem fetchNextMovie_always_settles (s : State) :
  let s' := fetchNextMovie upstream s in
  loading s' = false /\
  nextMovieData s' = nextMovieData s /\
  (served s + 1 <= served s' <= served s + 6)%nat /\
  (movieData s' = None ->
   error s' = Some "Failed to load next movie. Please try again later."%string /\
   snackbar s'
   = mkSnackbar true "Failed to load next movie. Please try again later.").
Proof.
  cbn zeta. unfold fetchNextMovie, fetchNextMovie_rest.
  set (s0 := setLoading true s).
  destruct (fetchMovieFromAPI_went_on s0) as (k & os & Hk & _ & Hs & He).
  destruct (fetchMovieFromAPI upstream s0) as [[[m|]|e] s1]; cbn in Hs, He;
    subst s1.
  - cbn. repeat split; try reflexivity; try lia; discriminate.
  - set (s2 := sleep 1000 _).
    destruct (fetchMovieFromAPI_went_on s2) as (k' & os' & Hk' & _ & Hs' & He').
    destruct (fetchMovieFromAPI upstream s2) as [[[m|]|e] s3]; cbn in Hs', He';
      subst s3.
    + cbn. repeat split; try reflexivity; try lia; discriminate.
    + destruct (movieData s) eqn:E; cbn; rewrite ?E;
        repeat split; try reflexivity; try lia; congruence.
    + destruct e as [msg].
      destruct (negb (includes msg "status_code: 34")); cbn.
      * repeat split; try reflexivity; lia.
      * destruct (movieData s) eqn:E; cbn; rewrite ?E;
          repeat split; try reflexivity; try lia; congruence.
  - destruct e as [msg].
    destruct (negb (includes msg "status_code: 34")); cbn.
    + repeat split; try reflexivity; lia.
    + destruct (movieData s) eqn:E; cbn; rewrite ?E;
        repeat split; try reflexivity; try lia; congruence.
Qed.

(** When the first answer is a movie, the foreground fetch shows it after
    one request and without a pause, and clears the error state. *)
Theorem fetchNextMovie_first_answer (s : State) (data : Data) :
  upstream (served s) = Json data ->
  transient data = false ->
  let s' := fetchNextMovie upstream s in
  movieData s' = Some (processMovieData data) /\
  error s' = None /\
  loading s' = false /\
  served s' = S (served s) /\
  delays (trace s') = delays (trace s).
Proof.
  intros Hu Ht. cbn zeta.
  unfold fetchNextMovie, fetchNextMovie_rest, fetchMovieFromAPI.
  rewrite RatingPageFacts.fetchMovieFromAPI_from_unfold.
  cbn [Nat.ltb Nat.leb maxRetries].
  unfold fetchMovieFromAPI_turn, fetch. cbn [setLoading served].
  rewrite Hu, Ht. cbn. rewrite !RatingPageFacts.delays_app. cbn.
  rewrite !app_nil_r. repeat split; reflexivity.
Qed.

End AnyUpstream.

Lemma fetchNextMovie_first_answer_witness :
  movieData
    (fetchNextMovie
       (fun _ => Json (mkData None None None (Some 7) None None None None None))
       (initial None))
  = Some (mkMovieData 7 "" "" None [] "").
Proof.
  apply (fetchNextMovie_first_answer
           (fun _ => Json (mkData None None None (Some 7) None None None None None))
           (initial None)
           (mkData None None None (Some 7) None None None None None)
           eq_refl eq_refl).
Defined.

(** ** Errors that are shown *)

Lemma prefix_chars (s1 s2 : string) (ch : Ascii.ascii) :
  String.prefix s1 s2 = true -> In ch (chars s1) -> In ch (chars s2).
Proof.
  revert s1. induction s2 as [|b s2 IH]; intros [|a s1]; cbn;
    try discriminate; try contradiction.
  destruct (Ascii.ascii_dec a b) as [->|]; [|discriminate].
  intros Hp [->|Hin]; [by left | right; eauto].
Qed.

Lemma includes_chars (hay needle : string) (ch : Ascii.ascii) :
  includes hay needle = true -> In ch (chars needle) -> In ch (chars hay).
Proof.
  induction hay as [|b hay IH]; cbn; intros H Hin.
  - rewrite orb_false_r in H. destruct needle; [contradiction|discriminate].
  - apply orb_true_iff in H as [H|H].
    + apply (prefix_chars needle (String b hay) ch H Hin).
    + right. apply IH; assumption.
Qed.

Lemma chars_append (a b : string) :
  chars (String.append a b) = chars a ++ chars b.
Proof.
  unfold chars. induction a as [|c a IH]; cbn; [reflexivity | by rewrite IH].
Qed.

Lemma digits_no_underscore (d : Decimal.uint) :
  ~ In "_"%char (chars (NilEmpty.string_of_uint d)).
Proof.
  induction d; cbn; intros H; try contradiction;
    destruct H as [H|H]; try discriminate; contradiction.
Qed.

Lemma status_error_is_loud (status : Z) :
  let 'Error msg := status_error status in
  includes msg "status_code: 34" = false.
Proof.
  unfold status_error.
  destruct (includes _ "status_code: 34") eqn:E; [|reflexivity]. exfalso.
  apply (includes_chars _ _ "_"%char) in E; [|cbn; tauto].
  rewrite chars_append in E. apply in_app_iff in E as [E|E].
  - cbn in E. repeat (destruct E as [E|E]; [discriminate|]). contradiction.
  - unfold NilZero.string_of_int, NilZero.string_of_uint in E.
    destruct (Z.to_int status) as [d|d].
    + destruct d; try (exact (digits_no_underscore _ E)).
      cbn in E. destruct E as [E|E]; [discriminate|contradiction].
    + cbn in E. destruct E as [E|E]; [discriminate|].
      destruct d; try (exact (digits_no_underscore _ E)).
      cbn in E. destruct E as [E|E]; [discriminate|contradiction].
Qed.

(** When every request is answered with an HTTP error status, the
    foreground fetch gives up after exactly three requests with the pauses
    1000 and 2000 and shows the error, in the error state and in the
    snackbar; the movie on display stays. *)
Theorem http_failure_is_shown (upstream : nat -> Response) (s : State) :
  (forall n, exists status, upstream n = HttpError status) ->
  let s' := fetchNextMovie upstream s in
  served s' = (3 + served s)%nat /\
  delays (trace s') = delays (trace s) ++ [1000; 2000] /\
  error s' = Some "Failed to load next movie. Please try again later."%string /\
  snackbar s'
  = mkSnackbar true "Failed to load next movie. Please try again later." /\
  loading s' = false /\
  movieData s' = movieData s.
Proof.
  intros Hup. cbn zeta. unfold fetchNextMovie, fetchNextMovie_rest.
  set (s0 := setLoading true s). unfold fetchMovieFromAPI.
  destruct (from_shape upstream 3 0 s0 eq_refl ltac:(lia))
    as (k & os & Hk & Hs & Ha & Hd & He).
  destruct (fetchMovieFromAPI_from upstream 0 s0) as [[[m|]|e] s1];
    cbn [fst snd] in Hs, He; subst s1.
  - destruct He as (data & Hj & _).
    destruct (Hup (k - 1 + served s0)%nat) as [st Hst]. congruence.
  - destruct He as (_ & data & Hj & _).
    destruct (Hup (k - 1 + served s0)%nat) as [st Hst]. congruence.
  - destruct He as (Hk3 & [(msg & Hn & _)|(st & Hh & ->)]).
    + destruct (Hup (k - 1 + served s0)%nat) as [st Hst]. congruence.
    + assert (Hk' : k = 3%nat) by exact Hk3. clear Ha Hk3. subst k.
      pose proof (status_error_is_loud st) as Hloud.
      unfold status_error in *. rewrite Hloud. cbn.
      rewrite RatingPageFacts.delays_app, RatingPageFacts.delays_app, Hd.
      cbn. rewrite app_nil_r. repeat split; reflexivity.
Qed.

Lemma http_failure_is_shown_witness :
  error (fetchNextMovie (fun _ => HttpError 500) (initial None))
  = Some "Failed to load next movie. Please try again later."%string.
Proof.
  destruct (http_failure_is_shown (fun _ => HttpError 500) (initial None))
    as (_ & _ & H & _); [intros n; eexists; reflexivity | exact H].
Defined.

(** ** [submitRating] and the effects *)

(** Without a movie, with the empty movie (id 0) or without a user,
    [submitRating] opens the snackbar and does nothing else: no advance, no
    request, no loading state. *)
Theorem submitRating_refuses (v : Rating) (s : State) :
  movieData s = None \/
  (exists m, movieData s = Some m /\ id m = 0) \/
  user s = None ->
  let s' := submitRating v s in
  open (snackbar s') = true /\
  movieData s' = movieData s /\
  nextMovieData s' = nextMovieData s /\
  tasks s' = tasks s /\
  loading s' = loading s /\
  submitting s' = submitting s /\
  error s' = error s.
Proof.
  intros H. cbn zeta. unfold submitRating.
  destruct (movieData s) as [m|] eqn:Em;
    [|cbn; rewrite ?Em; repeat split; reflexivity].
  destruct (Z.eqb_spec (id m) 0) as [E0|E0];
    [cbn; rewrite ?Em; repeat split; reflexivity|].
  destruct (user s) as [u|] eqn:Eu;
    [|cbn; rewrite ?Em, ?Eu; repeat split; reflexivity].
  destruct H as [H|[(m' & [= <-] & H)|H]]; [discriminate|contradiction|discriminate].
Qed.

Lemma submitRating_refuses_witness :
  open (snackbar (submitRating yes (initial None))) = true.
Proof. apply (submitRating_refuses yes (initial None)). by left. Defined.

(** A body without an id, or with the id 0, becomes a movie that the page
    neither rates nor preloads behind: [submitRating] answers with the
    snackbar and the preload effect does nothing. *)
Theorem body_without_id_is_not_rated (v : Rating) (data : Data) (s : State) :
  default 0 (data_id data) = 0 ->
  let s1 := setMovieData (Some (processMovieData data)) s in
  submitRating v s1
  = setSnackbar
      (mkSnackbar true "Cannot submit rating: Movie ID not available") s1 /\
  preloadEffect s1 = s1.
Proof.
  intros H. cbn zeta. unfold submitRating, preloadEffect. cbn.
  rewrite H. split; reflexivity.
Qed.

Lemma body_without_id_is_not_rated_witness :
  preloadEffect
    (setMovieData
       (Some (processMovieData
                (mkData None None None None None None None None None)))
       (initial None))
  = setMovieData (Some emptyMovie) (initial None).
Proof.
  apply (body_without_id_is_not_rated yes
           (mkData None None None None None None None None None) (initial None)).
  reflexivity.
Defined.

(** A rating that advances to the preloaded movie starts two preloads: one
    in [submitRating] itself and one in the effect that runs because the
    movie on display changed and nothing is preloaded any more. *)
Theorem rating_starts_two_preloads (v : Rating) (s : State)
    (x a : MovieData) (u : User) :
  movieData s = Some x -> id x <> 0 ->
  user s = Some u ->
  nextMovieData s = Some a -> id a <> 0 ->
  tasks (preloadEffect (submitRating v s))
  = tasks s
      ++ [TPreload;
          TWrite (mkPayload (user_id u) (id x) (selectionToRating v));
          TPreload].
Proof.
  intros Hx Hx0 Hu Ha Ha0.
  destruct (RatingPageFacts.submitRating_advances v s x a u Hx Hx0 Hu Ha)
    as (H1 & H2 & H3 & _). cbn zeta in *.
  unfold preloadEffect. rewrite H1, H2.
  destruct (Z.eqb_spec (id a) 0) as [E|_]; [contradiction|]. cbn.
  rewrite H3, <- !app_assoc. reflexivity.
Qed.

Lemma rating_starts_two_preloads_witness :
  tasks (preloadEffect (submitRating yes Scenario.rating_page))
  = [TPreload; TWrite (mkPayload 7 1 3); TPreload].
Proof.
  apply (rating_starts_two_preloads yes Scenario.rating_page
           (mkMovieData 1 "" "" None [] "") (mkMovieData 2 "" "" None [] "")
           (mkUser 7)); try reflexivity; discriminate.
Defined.

(** In [App] the movie changes only after the write of the rating has
    succeeded: a failed write keeps the movie on display and the preloaded
    one, starts nothing and opens the snackbar; a successful one shows the
    preloaded movie, or keeps the movie and starts a fetch when nothing was
    preloaded. *)
Theorem legacy_rating_waits_for_write (user_id : Z) (v : Rating) (s : State)
    (payload : Payload) (s1 : State) :
  legacy_submitRating user_id v s = (Some payload, s1) ->
  movieData s1 = movieData s /\
  nextMovieData s1 = nextMovieData s /\
  (let ko := legacy_submitRating_rest false (nextMovieData s) (movieData s) s1 in
   movieData ko = movieData s /\ nextMovieData ko = nextMovieData s /\
   tasks ko = tasks s /\
   snackbar ko = mkSnackbar true "Failed to submit rating. Please try again.") /\
  (let ok := legacy_submitRating_rest true (nextMovieData s) (movieData s) s1 in
   snackbar ok = snackbar s /\
   match nextMovieData s with
   | Some next =>
       movieData ok = Some next /\ nextMovieData ok = None /\
       tasks ok = tasks s ++ [TPreload]
   | None =>
       movieData ok = movieData s /\ loading ok = true /\
       tasks ok = tasks s ++ [TFetchNext (movieData s)]
   end).
Proof.
  unfold legacy_submitRating. destruct (movieData s) as [m|] eqn:Em;
    [|discriminate].
  destruct (id m =? 0); [discriminate|]. intros [= <- <-]. cbn.
  rewrite ?Em. destruct (nextMovieData s) eqn:En; cbn; rewrite ?Em, ?En;
    repeat split; reflexivity.
Qed.

Lemma legacy_rating_waits_for_write_witness :
  movieData
    (legacy_submitRating_rest false
       (nextMovieData Scenario.rating_page) (movieData Scenario.rating_page)
       (legacy_submitRating 7 yes Scenario.rating_page).2)
  = movieData Scenario.rating_page.
Proof.
  destruct (legacy_rating_waits_for_write 7 yes Scenario.rating_page _ _ eq_refl)
    as (_ & _ & (H & _) & _).
  exact H.
Defined.

End RatingPageMoreFacts.

(** * Further properties of [ExplorerV1] *)

Module ExplorerV1MoreFacts.

Import ExplorerV1.

Lemma validMovies_length (rs : list Reply1) :
  (length (validMovies rs) <= length rs)%nat.
Proof.
  unfold validMovies. induction rs as [|r rs IH]; cbn; [lia|].
  destruct (fetchMovie_result r); cbn; lia.
Qed.

Lemma validMovies_all (rs : list Reply1) :
  (forall r, r ∈ rs -> exists m, r = Movie1 m) ->
  length (validMovies rs) = length rs.
Proof.
  unfold validMovies. induction rs as [|r rs IH]; intros H; [reflexivity|].
  destruct (H r (list_elem_of_here _ _)) as [m ->]. cbn. f_equal.
  apply IH. intros r' Hr'. apply H. by apply list_elem_of_further.
Qed.

(** A full queue is left alone.  Below [QUEUE_SIZE], [replenishQueue]
    sends one request for each missing movie; when these settle before
    anything else changes the queue, the queue has grown by the fetches
    that succeeded, is not longer than [QUEUE_SIZE], and is exactly that
    long when all of them succeeded. *)
Theorem v1_replenish_tops_up (s : State) (rs : list Reply1) :
  ((QUEUE_SIZE <= length (movieQueue s))%nat -> replenishQueue s = s) /\
  ((length (movieQueue s) < QUEUE_SIZE)%nat ->
   let needed := (QUEUE_SIZE - length (movieQueue s))%nat in
   let s1 := replenishQueue s in
   requests s1 = requests s ++ replicate needed GetOne /\
   (length rs = needed ->
    let s2 := settle (length (pending s)) rs s1 in
    movieQueue s2 = movieQueue s ++ validMovies rs /\
    (length (movieQueue s2) <= QUEUE_SIZE)%nat /\
    ((forall r, r ∈ rs -> exists m, r = Movie1 m) ->
     length (movieQueue s2) = QUEUE_SIZE))).
Proof.
  split.
  - intros H. unfold replenishQueue.
    rewrite (proj2 (Nat.ltb_ge _ _) H). reflexivity.
  - intros H. cbn zeta. unfold replenishQueue.
    rewrite (proj2 (Nat.ltb_lt _ _) H). split; [reflexivity|].
    intros Hlen. unfold settle.
    cbn [pending setPending fetchMovie_calls issue].
    rewrite (list_lookup_middle (pending s) [] _ _ eq_refl).
    cbn [arity]. rewrite Hlen, Nat.eqb_refl. cbn [resume].
    destruct (ExplorerV1Facts.v1_replenishQueue_resume_frame rs
                (setPending (delete (length (pending s)))
                   (setPending (fun ps => ps ++ [PReplenish
                      (QUEUE_SIZE - length (movieQueue s))])
                      (fetchMovie_calls (QUEUE_SIZE - length (movieQueue s)) s))))
      as (_ & _ & Hq).
    cbn zeta in Hq. rewrite Hq. cbn [movieQueue setPending fetchMovie_calls issue].
    split; [reflexivity|]. rewrite length_app.
    pose proof (validMovies_length rs). split; [lia|].
    intros Hall. rewrite (validMovies_all rs Hall). lia.
Qed.

Lemma v1_replenish_tops_up_witness :
  length
    (movieQueue
       (settle 0
          [Movie1 Scenario.B; Movie1 Scenario.C; Movie1 Scenario.D]
          (replenishQueue Scenario.loaded_v1)))
  = QUEUE_SIZE.
Proof.
  destruct (v1_replenish_tops_up Scenario.loaded_v1
              [Movie1 Scenario.B; Movie1 Scenario.C; Movie1 Scenario.D])
    as [_ H].
  destruct (H ltac:(vm_compute; lia)) as [_ H2].
  destruct (H2 eq_refl) as (_ & _ & H3).
  apply H3. intros r Hr.
  repeat (apply elem_of_cons in Hr as [->|Hr]; [eexists; reflexivity|]).
  by apply not_elem_of_nil in Hr.
Defined.

End ExplorerV1MoreFacts.
